(** * The [function-component-definition] rule of the React plugin

    A shallow embedding of
    [packages/plugin-react/src/rules/function-component-definition.js]:
    the helpers that read the syntax tree, the template substitution that
    synthesizes a replacement text, the guard that withholds a fix, and the
    [validate] visitor that compares a function node with the configured
    declaration styles.

    Conventions of the embedding.
    - A JavaScript exception is a value [inl e] of the error monad [Exc];
      a normal completion is [inr v].
    - Source text is a [string] indexed by code unit; a node's [range] is
      the pair of offsets the parser attaches to it.
    - A value that is only ever tested for truthiness or read through
      [x || ''] is an [option]: [None] stands for [undefined], [null] and
      [false] alike.
    - The rule's schema restricts every configured style to the three
      literals of [Variant]; the host validates options against the schema
      before the rule is created. *)

From Stdlib Require Import String Ascii List Bool Arith ZArith Lia Permutation.
From Stdlib Require QArith Qround.
From ExtLib Require Import Structures.Monad Structures.MonadExc.
From ExtLib Require Import Data.Monads.EitherMonad.
From Equations Require Import Equations.
Import ListNotations.
Import MonadNotation.
Local Open Scope string_scope.
Local Open Scope monad_scope.

(* ------------------------------------------------------------------ *)
(** ** JavaScript values used by the rule *)
(* ------------------------------------------------------------------ *)

(** Reading a property of [undefined] or [null], or calling a method on
    it, throws a [TypeError]; the rule has no other source of exceptions. *)
Inductive JsError : Type :=
  | TypeError.

Definition Exc : Type -> Type := sum JsError.

(** [o.p] where [o] may be [undefined]. *)
Definition member {A : Type} (o : option A) : Exc A :=
  match o with
  | Some a => ret a
  | None => raise TypeError
  end.

(** [x || ''] for a string-or-falsy [x]. *)
Definition or_empty (x : option string) : string :=
  match x with
  | Some s => s
  | None => ""
  end.

(** Truthiness of a string-or-falsy value: a string is truthy unless it is
    empty. *)
Definition truthy (x : option string) : bool :=
  match x with
  | Some s => negb (s =? "")
  | None => false
  end.

Definition Range : Type := (nat * nat)%type.

(** [String.prototype.slice(a, b)] at non-negative offsets: both ends are
    clamped to the length and an inverted interval is empty. *)
Definition slice (source : string) (a b : nat) : string :=
  substring a (b - a) source.

(** The replacement patterns of [String.prototype.replace] when the
    pattern is a string (so there are no captures): [$$] is a dollar sign,
    [$&] the match, [$`] the text before it, [$'] the text after it; any
    other [$] stands for itself. *)
Fixpoint getSubstitution (matched before after replacement : string)
  : string :=
  match replacement with
  | EmptyString => EmptyString
  | String c rest =>
      if Ascii.eqb c "$" then
        match rest with
        | String d rest' =>
            if Ascii.eqb d "$" then
              String "$" (getSubstitution matched before after rest')
            else if Ascii.eqb d "&" then
              matched ++ getSubstitution matched before after rest'
            else if Ascii.eqb d "`" then
              before ++ getSubstitution matched before after rest'
            else if Ascii.eqb d "'" then
              after ++ getSubstitution matched before after rest'
            else String c (getSubstitution matched before after rest)
        | EmptyString => String c EmptyString
        end
      else String c (getSubstitution matched before after rest)
  end.

(** [s.replace(pattern, replacement)] with a string pattern: only the
    first occurrence is replaced, and a string without the pattern is
    returned as it is. *)
Definition replace (s pattern replacement : string) : string :=
  match index 0 pattern s with
  | None => s
  | Some p =>
      let q := p + String.length pattern in
      let before := substring 0 p s in
      let after := substring q (String.length s - q) s in
      before ++ getSubstitution pattern before after replacement ++ after
  end.

(** [lines.join('\n')]. *)
Definition LF : string := String (ascii_of_nat 10) EmptyString.

Fixpoint join (sep : string) (parts : list string) : string :=
  match parts with
  | [] => ""
  | [x] => x
  | x :: rest => x ++ sep ++ join sep rest
  end.

(* ------------------------------------------------------------------ *)
(** ** The part of the syntax tree the rule reads *)
(* ------------------------------------------------------------------ *)

(** The three node types the rule registers a visitor for. *)
Inductive NodeType : Type :=
  | FunctionDeclaration
  | ArrowFunctionExpression
  | FunctionExpression.

(** The three declaration styles of the schema's [enum]:
    ['function-declaration'], ['arrow-function'], ['function-expression']. *)
Inductive Variant : Type :=
  | function_declaration
  | arrow_function
  | function_expression.

Definition NodeType_eqb (a b : NodeType) : bool :=
  match a, b with
  | FunctionDeclaration, FunctionDeclaration
  | ArrowFunctionExpression, ArrowFunctionExpression
  | FunctionExpression, FunctionExpression => true
  | _, _ => false
  end.

Definition Variant_eqb (a b : Variant) : bool :=
  match a, b with
  | function_declaration, function_declaration
  | arrow_function, arrow_function
  | function_expression, function_expression => true
  | _, _ => false
  end.

(** The literal a [Variant] is written as in options and message ids. *)
Definition Variant_literal (v : Variant) : string :=
  match v with
  | function_declaration => "function-declaration"
  | arrow_function => "arrow-function"
  | function_expression => "function-expression"
  end.

(** A binding target or a function's own [id]: an identifier has a
    [name]; a destructuring pattern has none. Its [typeAnnotation], when
    present, is a node of which only the range is read. *)
Record Binding : Type := mkBinding {
  id_name : option string;
  id_typeAnnotation : option Range
}.

Record TypeParameter : Type := mkTypeParameter {
  tp_constraint : option Range
}.

Record TypeParameters : Type := mkTypeParameters {
  tps_range : Range;
  tps_params : list TypeParameter
}.

Record Body : Type := mkBody {
  body_type : string;
  body_range : Range
}.

(** [node.parent.parent], of which only [range] is read. *)
Record Ancestor : Type := mkAncestor {
  anc_type : string;
  anc_range : Range
}.

Record Parent : Type := mkParent {
  parent_type : string;
  parent_id : option Binding;
  parent_range : Range;
  parent_parent : option Ancestor
}.

Record Node : Type := mkNode {
  node_type : NodeType;
  node_id : option Binding;
  node_params : list Range;
  node_typeParameters : option TypeParameters;
  node_returnType : option Range;
  node_body : Body;
  node_range : Range;
  node_parent : option Parent
}.

(* ------------------------------------------------------------------ *)
(** ** Templates and template substitution *)
(* ------------------------------------------------------------------ *)

(** The object literal passed to [buildFunction]; [Object.keys] lists its
    properties in the order they are written:
    [typeAnnotation], [typeParams], [params], [returnType], [body],
    [name]. *)
Record Parts : Type := mkParts {
  part_typeAnnotation : option string;
  part_typeParams : option string;
  part_params : option string;
  part_returnType : option string;
  part_body : option string;
  part_name : option string
}.

Definition Object_entries (parts : Parts) : list (string * option string) :=
  [ ("typeAnnotation", part_typeAnnotation parts);
    ("typeParams", part_typeParams parts);
    ("params", part_params parts);
    ("returnType", part_returnType parts);
    ("body", part_body parts);
    ("name", part_name parts) ].

(** [Object.keys(parts).reduce((acc, key) =>
      acc.replace(`{${key}}`, parts[key] || ''), template)].
    With an [undefined] template the first [acc.replace] throws. *)
Definition buildFunction (template : option string) (parts : Parts)
  : Exc string :=
  fold_left
    (fun (acc : Exc string) (entry : string * option string) =>
       a <- acc ;;
       ret (replace a ("{" ++ fst entry ++ "}") (or_empty (snd entry))))
    (Object_entries parts)
    (member template).

Definition NAMED_FUNCTION_TEMPLATES (key : option Variant) : option string :=
  match key with
  | Some function_declaration =>
      Some "function {name}{typeParams}({params}){returnType} {body}"
  | Some arrow_function =>
      Some "var {name}{typeAnnotation} = {typeParams}({params}){returnType} => {body}"
  | Some function_expression =>
      Some "var {name}{typeAnnotation} = function{typeParams}({params}){returnType} {body}"
  | None => None
  end.

Definition UNNAMED_FUNCTION_TEMPLATES (key : option Variant) : option string :=
  match key with
  | Some function_expression =>
      Some "function{typeParams}({params}){returnType} {body}"
  | Some arrow_function =>
      Some "{typeParams}({params}){returnType} => {body}"
  | _ => None
  end.

(* ------------------------------------------------------------------ *)
(** ** Helpers over a function node *)
(* ------------------------------------------------------------------ *)

Definition hasOneUnconstrainedTypeParam (node : Node) : bool :=
  match node_typeParameters node with
  | Some tps =>
      match tps_params tps with
      | [p] =>
          match tp_constraint p with
          | None => true
          | Some _ => false
          end
      | _ => false
      end
  | None => false
  end.

(** [node.type === 'FunctionDeclaration' ||
     node.parent.type === 'VariableDeclarator']: the parent is read
    without a guard. *)
Definition hasName (node : Node) : Exc bool :=
  if NodeType_eqb (node_type node) FunctionDeclaration then ret true
  else
    p <- member (node_parent node) ;;
    ret (parent_type p =? "VariableDeclarator").

Definition getNodeText (prop : option Range) (source : string)
  : option string :=
  match prop with
  | None => None
  | Some r => Some (slice source (fst r) (snd r))
  end.

Definition getName (node : Node) : Exc (option string) :=
  match node_type node with
  | FunctionDeclaration =>
      i <- member (node_id node) ;;
      ret (id_name i)
  | ArrowFunctionExpression | FunctionExpression =>
      named <- hasName node ;;
      if named : bool then
        p <- member (node_parent node) ;;
        i <- member (parent_id p) ;;
        ret (id_name i)
      else ret None
  end.

Definition getParams (node : Node) (source : string) : option string :=
  match node_params node with
  | [] => None
  | first :: _ =>
      Some (slice source (fst first) (snd (last (node_params node) first)))
  end.

Definition getBody (node : Node) (source : string) : string :=
  let range := body_range (node_body node) in
  if negb (body_type (node_body node) =? "BlockStatement") then
    join LF
      [ "{";
        "  return " ++ slice source (fst range) (snd range);
        "}" ]
  else slice source (fst range) (snd range).

Definition getTypeAnnotation (node : Node) (source : string)
  : Exc (option string) :=
  named <- hasName node ;;
  if negb named || NodeType_eqb (node_type node) FunctionDeclaration
  then ret None
  else
    p <- member (node_parent node) ;;
    i <- member (parent_id p) ;;
    ret (getNodeText (id_typeAnnotation i) source).

Definition isDefaultExport (node : Node) : bool :=
  NodeType_eqb (node_type node) FunctionDeclaration &&
  match node_parent node with
  | Some p => parent_type p =? "ExportDefaultDeclaration"
  | None => false
  end.

Definition isUnfixableBecauseOfExport (node : Node) : bool :=
  isDefaultExport node.

Definition isFunctionExpressionWithName (node : Node) : bool :=
  NodeType_eqb (node_type node) FunctionExpression &&
  match node_id node with
  | Some i => truthy (id_name i)
  | None => false
  end.

Definition messages (messageId : option Variant) : option string :=
  match messageId with
  | Some function_declaration =>
      Some "Function component is not a function declaration"
  | Some function_expression =>
      Some "Function component is not a function expression"
  | Some arrow_function =>
      Some "Function component is not an arrow function"
  | None => None
  end.

(* ------------------------------------------------------------------ *)
(** ** Rule options *)
(* ------------------------------------------------------------------ *)

(** An option of the schema's [oneOf]: one literal, or an array of them. *)
Inductive OptionValue : Type :=
  | Literal (v : Variant)
  | Array (l : list Variant).

Record DefaultExportOptions : Type := mkDefaultExportOptions {
  de_namedComponents : option OptionValue;
  de_unnamedComponents : option OptionValue
}.

Record Configuration : Type := mkConfiguration {
  namedComponents : option OptionValue;
  unnamedComponents : option OptionValue;
  defaultExport : option DefaultExportOptions
}.

(** The host's [context]: the array of rule options and the text of the
    file being analysed ([context.getSourceCode().getText()]). *)
Record Context : Type := mkContext {
  options : list Configuration;
  sourceText : string
}.

(** [value || fallback] for an option that is a non-empty literal or an
    array: only an absent option is falsy. *)
Definition or_literal (value : option OptionValue) (fallback : Variant)
  : OptionValue :=
  match value with
  | Some v => v
  | None => Literal fallback
  end.

(** [[].concat(value)]: an array is copied, anything else becomes the
    only element. *)
Definition concat_onto_empty (value : OptionValue) : list Variant :=
  match value with
  | Literal v => [v]
  | Array l => l
  end.

(** [list.includes(v)]. *)
Definition includes (l : list Variant) (v : Variant) : bool :=
  existsb (Variant_eqb v) l.

(** [o.type === 'literal'] for a possibly [undefined] style. *)
Definition is_variant (o : option Variant) (v : Variant) : bool :=
  match o with
  | Some w => Variant_eqb w v
  | None => false
  end.

(* ------------------------------------------------------------------ *)
(** ** What the rule hands to the reporter *)
(* ------------------------------------------------------------------ *)

Record FixerOptions : Type := mkFixerOptions {
  fo_type : option Variant;
  fo_template : option string;
  fo_range : Range
}.

Record ReportOptions : Type := mkReportOptions {
  messageId : option Variant;
  fixerOptions : FixerOptions
}.

(** The closure [(fixer) => fixer.replaceTextRange(options.range, ...)]
    returned by [getFixer], as the variables it captures. *)
Record Fix : Type := mkFix {
  fix_node : Node;
  fix_options : FixerOptions;
  fix_typeAnnotation : option string
}.

(** One call of the reporter: the node, the message text, the message id
    and the fix callback, absent when [getFixer] returned nothing. *)
Record Diagnostic : Type := mkDiagnostic {
  diag_node : Node;
  diag_message : option string;
  diag_messageId : option Variant;
  diag_fix : option Fix
}.

(** The edit a fix callback asks the host for. *)
Record TextEdit : Type := mkTextEdit {
  edit_range : Range;
  edit_text : string
}.

(* ------------------------------------------------------------------ *)
(** ** [create]: the rule instantiated for one file *)
(* ------------------------------------------------------------------ *)

Section Create.

Variable context : Context.

(** [components.get(node)], reduced to its truthiness: the component
    detection of the React plugin is outside this repository. *)
Variable components : Node -> bool.

Definition empty_configuration : Configuration :=
  mkConfiguration None None None.

Definition empty_defaultExport : DefaultExportOptions :=
  mkDefaultExportOptions None None.

Definition configuration : Configuration :=
  match hd_error (options context) with
  | Some c => c
  | None => empty_configuration
  end.

Definition defaultExportConfig : DefaultExportOptions :=
  match defaultExport configuration with
  | Some d => d
  | None => empty_defaultExport
  end.

Definition defaultExportNamedConfig : list Variant :=
  concat_onto_empty
    (or_literal (de_namedComponents defaultExportConfig)
       function_declaration).

Definition defaultExportUnnamedConfig : list Variant :=
  concat_onto_empty
    (or_literal (de_unnamedComponents defaultExportConfig)
       function_expression).

Definition namedConfig : list Variant :=
  concat_onto_empty
    (or_literal (namedComponents configuration) function_declaration).

Definition unnamedConfig : list Variant :=
  concat_onto_empty
    (or_literal (unnamedComponents configuration) function_expression).

Definition getFixer (node : Node) (opts : FixerOptions)
  : Exc (option Fix) :=
  let source := sourceText context in
  typeAnnotation <- getTypeAnnotation node source ;;
  if is_variant (fo_type opts) function_declaration
     && truthy typeAnnotation then ret None
  else if is_variant (fo_type opts) arrow_function
          && hasOneUnconstrainedTypeParam node then ret None
  else if isUnfixableBecauseOfExport node then ret None
  else if isFunctionExpressionWithName node then ret None
  else ret (Some (mkFix node opts typeAnnotation)).

(** Calling the closure: the arguments of [buildFunction] are evaluated
    in the order they are written, then the template is filled. *)
Definition runFix (f : Fix) : Exc TextEdit :=
  let source := sourceText context in
  let node := fix_node f in
  name <- getName node ;;
  text <- buildFunction (fo_template (fix_options f))
            (mkParts
               (fix_typeAnnotation f)
               (getNodeText
                  (option_map tps_range (node_typeParameters node)) source)
               (getParams node source)
               (getNodeText (node_returnType node) source)
               (Some (getBody node source))
               name) ;;
  ret (mkTextEdit (fo_range (fix_options f)) text).

(** [report]: the reporter is called once, with the outcome of
    [getFixer] as [fix]. The reporter is the host's: the result records
    what it is handed, not what it does with it. It throws on a report
    without a message and when the fix callback, which it calls at once,
    throws; [reporterAccepts] below states when it does not. *)
Definition report (node : Node) (opts : ReportOptions)
  : Exc (list Diagnostic) :=
  fix_ <- getFixer node (fixerOptions opts) ;;
  ret [ mkDiagnostic node (messages (messageId opts)) (messageId opts)
          fix_ ].

Definition applyConfig (functionType : Variant) (node : Node)
    (appliedNameConfig appliedUnnamedConfig : list Variant)
  : Exc (list Diagnostic) :=
  named <- hasName node ;;
  if named && negb (includes appliedNameConfig functionType) then
    range <-
      (if NodeType_eqb (node_type node) FunctionDeclaration
       then ret (node_range node)
       else
         p <- member (node_parent node) ;;
         g <- member (parent_parent p) ;;
         ret (anc_range g)) ;;
    report node
      (mkReportOptions (hd_error namedConfig)
         (mkFixerOptions (hd_error namedConfig)
            (NAMED_FUNCTION_TEMPLATES (hd_error namedConfig))
            range))
  else
    named' <- hasName node ;;
    if negb named' && negb (includes appliedUnnamedConfig functionType)
    then
      report node
        (mkReportOptions (hd_error unnamedConfig)
           (mkFixerOptions (hd_error unnamedConfig)
              (UNNAMED_FUNCTION_TEMPLATES (hd_error unnamedConfig))
              (node_range node)))
    else ret [].

(** The diagnostics one call of [validate] hands to the reporter. *)
Definition validate (node : Node) (functionType : Variant)
  : Exc (list Diagnostic) :=
  if negb (components node) then ret []
  else if match node_parent node with
          | Some p => parent_type p =? "Property"
          | None => false
          end
  then ret []
  else if isDefaultExport node then
    applyConfig functionType node
      defaultExportNamedConfig defaultExportUnnamedConfig
  else applyConfig functionType node namedConfig unnamedConfig.

(** The visitor table returned by [create]: each node type calls
    [validate] with its own style. *)
Definition functionTypeOf (t : NodeType) : Variant :=
  match t with
  | FunctionDeclaration => function_declaration
  | ArrowFunctionExpression => arrow_function
  | FunctionExpression => function_expression
  end.

Definition visit (node : Node) : Exc (list Diagnostic) :=
  validate node (functionTypeOf (node_type node)).

End Create.

(* ------------------------------------------------------------------ *)
(** ** The policy and the guard, stated independently of the code *)
(* ------------------------------------------------------------------ *)

(** The configuration pair [validate] passes to [applyConfig]: the
    default-export pair for a default export, else the general pair. *)
Definition appliedPair (context : Context) (node : Node)
  : list Variant * list Variant :=
  if isDefaultExport node
  then (defaultExportNamedConfig context, defaultExportUnnamedConfig context)
  else (namedConfig context, unnamedConfig context).

(** The list of that pair a node is compared with: the named list for a
    named node, the unnamed list otherwise. *)
Definition selectedList (context : Context) (node : Node)
  : Exc (list Variant) :=
  named <- hasName node ;;
  ret (if named : bool
       then fst (appliedPair context node)
       else snd (appliedPair context node)).

(** The general list whose head [applyConfig] reports, by namedness. *)
Definition reportedList (context : Context) (named : bool) : list Variant :=
  if named then namedConfig context else unnamedConfig context.

Definition reportedTemplate (named : bool) (target : option Variant)
  : option string :=
  if named then NAMED_FUNCTION_TEMPLATES target
  else UNNAMED_FUNCTION_TEMPLATES target.

(** The guard of [getFixer], given the text of the binding's annotation. *)
Definition guarded (node : Node) (opts : FixerOptions)
    (typeAnnotation : option string) : bool :=
  (is_variant (fo_type opts) function_declaration && truthy typeAnnotation)
  || (is_variant (fo_type opts) arrow_function
      && hasOneUnconstrainedTypeParam node)
  || isUnfixableBecauseOfExport node
  || isFunctionExpressionWithName node.

(** A function is bound to a variable when it is the initializer of a
    declarator; a function declaration never is. *)
Definition boundToVariable (node : Node) (p : Parent) : Prop :=
  node_type node <> FunctionDeclaration /\
  node_parent node = Some p /\
  parent_type p = "VariableDeclarator".

(** Guard condition 1: the variable binding carries a type annotation
    whose text is not empty. *)
Definition bindingHasTypeAnnotation (source : string) (node : Node) : Prop :=
  exists p i r,
    boundToVariable node p /\
    parent_id p = Some i /\
    id_typeAnnotation i = Some r /\
    slice source (fst r) (snd r) <> "".

(** Guard condition 2: exactly one type parameter, without a constraint. *)
Definition oneUnconstrainedTypeParam (node : Node) : Prop :=
  exists tps p,
    node_typeParameters node = Some tps /\
    tps_params tps = [p] /\
    tp_constraint p = None.

(** Guard condition 3: a function declaration directly under a default
    export. *)
Definition defaultExportedDeclaration (node : Node) : Prop :=
  node_type node = FunctionDeclaration /\
  exists p,
    node_parent node = Some p /\
    parent_type p = "ExportDefaultDeclaration".

(** Guard condition 4: a function expression with an identifier of its
    own. *)
Definition selfNamedFunctionExpression (node : Node) : Prop :=
  node_type node = FunctionExpression /\ node_id node <> None.

(** The parser gives every identifier a name that is not empty. *)
Definition ownIdWellFormed (node : Node) : Prop :=
  forall i, node_id node = Some i ->
    exists s, id_name i = Some s /\ s <> "".

(** Every option written as a one-element array instead of a literal. *)
Definition arrayForm (value : option OptionValue) : option OptionValue :=
  match value with
  | Some (Literal v) => Some (Array [v])
  | other => other
  end.

Definition arrayFormConfiguration (c : Configuration) : Configuration :=
  mkConfiguration
    (arrayForm (namedComponents c))
    (arrayForm (unnamedComponents c))
    (option_map
       (fun d => mkDefaultExportOptions
                   (arrayForm (de_namedComponents d))
                   (arrayForm (de_unnamedComponents d)))
       (defaultExport c)).

(* ------------------------------------------------------------------ *)
(** ** Concrete files *)
(* ------------------------------------------------------------------ *)

Definition always (b : bool) : Node -> bool := fun _ => b.

(** [const Add = (a: number, b: number): number => a + b;] as the
    TypeScript parser annotates it: the arrow function spans [12, 51),
    its parameters [13, 22) and [24, 33), the return type [: number]
    [34, 42), the expression body [46, 51), the declarator [6, 51) and the
    whole statement [0, 52). *)
Definition add_source : string :=
  "const Add = (a: number, b: number): number => a + b;".

Definition add_declarator : Parent :=
  mkParent "VariableDeclarator" (Some (mkBinding (Some "Add") None)) (6, 51)
    (Some (mkAncestor "VariableDeclaration" (0, 52))).

Definition add_node : Node :=
  mkNode ArrowFunctionExpression None [(13, 22); (24, 33)] None
    (Some (34, 42)) (mkBody "BinaryExpression" (46, 51)) (12, 51)
    (Some add_declarator).

(** Options [[{ namedComponents: 'function-expression' }]]. *)
Definition add_context : Context :=
  mkContext
    [mkConfiguration (Some (Literal function_expression)) None None]
    add_source.


(** [export default function Hello() { return null; }] under options
    [[{ defaultExport: { namedComponents: 'arrow-function' } }]]. *)
Definition hello_source : string :=
  "export default function Hello() { return null; }".

Definition hello_node : Node :=
  mkNode FunctionDeclaration (Some (mkBinding (Some "Hello") None)) [] None
    None (mkBody "BlockStatement" (32, 48)) (15, 48)
    (Some (mkParent "ExportDefaultDeclaration" None (0, 48)
             (Some (mkAncestor "Program" (0, 48))))).

Definition hello_context : Context :=
  mkContext
    [mkConfiguration None None
       (Some (mkDefaultExportOptions (Some (Literal arrow_function)) None))]
    hello_source.

(** [const views = { Hello: () => null };]: the arrow function is the
    value of an object-literal property. *)
Definition method_node : Node :=
  mkNode ArrowFunctionExpression None [] None None
    (mkBody "Literal" (29, 33)) (23, 33)
    (Some (mkParent "Property" None (16, 33)
             (Some (mkAncestor "ObjectExpression" (14, 35))))).

(** [const Named = function Inner() { return null; };]. *)
Definition inner_node : Node :=
  mkNode FunctionExpression (Some (mkBinding (Some "Inner") None)) [] None
    None (mkBody "BlockStatement" (31, 47)) (14, 47)
    (Some (mkParent "VariableDeclarator"
             (Some (mkBinding (Some "Named") None)) (6, 47)
             (Some (mkAncestor "VariableDeclaration" (0, 48))))).

(* ------------------------------------------------------------------ *)
(** ** Template filling, exceptions and fragments: auxiliary definitions *)
(* ------------------------------------------------------------------ *)

(** The segments of a text in sequence, followed by [rest]. *)
Fixpoint cat (segments : list string) (rest : string) : string :=
  match segments with
  | [] => rest
  | x :: more => x ++ cat more rest
  end.

(** [pat] is told apart from the text at the head of [s] before either
    runs out. *)
Fixpoint mismatch (pat s : string) : bool :=
  match pat, s with
  | String a p, String b t => if Ascii.eqb a b then mismatch p t else true
  | _, _ => false
  end.

(** [pat] starts at no position of the literal [lit], whatever follows
    [lit]. *)
Fixpoint mismatchEverywhere (pat lit : string) : bool :=
  match lit with
  | EmptyString => true
  | String _ t => mismatch pat lit && mismatchEverywhere pat t
  end.

(** The character [c] occurs in [s]. *)
Fixpoint occursIn (c : ascii) (s : string) : bool :=
  match s with
  | EmptyString => false
  | String a t => Ascii.eqb a c || occursIn c t
  end.

(** A match of [pat] begun earlier cannot run on into [next]: [next] is
    empty, or starts with a character found nowhere after the first
    character of [pat]. *)
Definition cannotContinue (pat next : string) : bool :=
  match pat, next with
  | String _ p, String c _ => negb (occursIn c p)
  | _, _ => true
  end.

(** [s.indexOf(pat) !== -1]. *)
Definition mentions (pat s : string) : bool :=
  match index 0 pat s with
  | Some _ => true
  | None => false
  end.

(** A search for [pat] passes over every segment: a segment is a literal
    at no position of which [pat] starts, or a text that does not mention
    [pat] and is followed by something a match cannot run on into. *)
Fixpoint skips (pat : string) (segments : list string) (rest : string) : Prop :=
  match segments with
  | [] => True
  | x :: more =>
      (mismatchEverywhere pat x = true \/
       (mentions pat x = false /\ cannotContinue pat (cat more rest) = true)) /\
      skips pat more rest
  end.

(** [s] holds none of the replacement patterns [$$], [$&], [$`], [$']. *)
Fixpoint patternFree (s : string) : bool :=
  match s with
  | EmptyString => true
  | String c rest =>
      (if Ascii.eqb c "$" then
         match rest with
         | String d _ =>
             negb (Ascii.eqb d "$" || Ascii.eqb d "&"
                   || Ascii.eqb d "`" || Ascii.eqb d "'")
         | EmptyString => true
         end
       else true)
      && patternFree rest
  end.

(** The fragment (the empty string when it is missing) mentions none of
    [pats] and holds no replacement pattern. *)
Definition avoids (pats : list string) (fragment : option string) : bool :=
  forallb (fun pat => negb (mentions pat (or_empty fragment))) pats
  && patternFree (or_empty fragment).

(** The named templates with every placeholder filled in. *)
Definition namedText (target : Variant) (parts : Parts) : string :=
  let typeAnnotation := or_empty (part_typeAnnotation parts) in
  let typeParams := or_empty (part_typeParams parts) in
  let params := or_empty (part_params parts) in
  let returnType := or_empty (part_returnType parts) in
  let body := or_empty (part_body parts) in
  let name := or_empty (part_name parts) in
  match target with
  | function_declaration =>
      "function " ++ name ++ typeParams ++ "(" ++ params ++ ")"
        ++ returnType ++ " " ++ body
  | arrow_function =>
      "var " ++ name ++ typeAnnotation ++ " = " ++ typeParams
        ++ "(" ++ params ++ ")" ++ returnType ++ " => " ++ body
  | function_expression =>
      "var " ++ name ++ typeAnnotation ++ " = function" ++ typeParams
        ++ "(" ++ params ++ ")" ++ returnType ++ " " ++ body
  end.

(** The unnamed templates with every placeholder filled in; there is
    none for [function-declaration]. *)
Definition unnamedText (target : Variant) (parts : Parts) : option string :=
  let typeParams := or_empty (part_typeParams parts) in
  let params := or_empty (part_params parts) in
  let returnType := or_empty (part_returnType parts) in
  let body := or_empty (part_body parts) in
  match target with
  | function_declaration => None
  | arrow_function =>
      Some (typeParams ++ "(" ++ params ++ ")" ++ returnType ++ " => " ++ body)
  | function_expression =>
      Some ("function" ++ typeParams ++ "(" ++ params ++ ")" ++ returnType
              ++ " " ++ body)
  end.

(** [node.parent && node.parent.type === 'Property']. *)
Definition inProperty (node : Node) : bool :=
  match node_parent node with
  | Some p => parent_type p =? "Property"
  | None => false
  end.

(** The general option the head of a report is read from. *)
Definition generalOption (context : Context) (named : bool)
  : option OptionValue :=
  if named then namedComponents (configuration context)
  else unnamedComponents (configuration context).

(** What makes [validate] throw. *)
Definition validateThrows (context : Context) (components : Node -> bool)
    (node : Node) (functionType : Variant) : Prop :=
  components node = true /\
  node_type node <> FunctionDeclaration /\
  match node_parent node with
  | None => True
  | Some p =>
      parent_type p = "VariableDeclarator" /\
      includes (namedConfig context) functionType = false /\
      (parent_parent p = None \/ parent_id p = None)
  end.

(** Every node below the root has a parent, and a declarator has an
    [id] and sits in a declaration. *)
Definition wellFormed (node : Node) : Prop :=
  exists p,
    node_parent node = Some p /\
    (parent_type p = "VariableDeclarator" ->
     parent_id p <> None /\ parent_parent p <> None).

(** The object literal the fix callback passes to [buildFunction]. *)
Definition fragments (source : string) (node : Node)
    (typeAnnotation name : option string) : Parts :=
  mkParts typeAnnotation
    (getNodeText (option_map tps_range (node_typeParameters node)) source)
    (getParams node source)
    (getNodeText (node_returnType node) source)
    (Some (getBody node source))
    name.

(** [export default (props) => <b>{name}</b>;]: an anonymous arrow
    function under a default export. *)
Definition anonymous_source : string :=
  "export default (props) => <b>{name}</b>;".

Definition anonymous_node : Node :=
  mkNode ArrowFunctionExpression None [(16, 21)] None None
    (mkBody "JSXElement" (26, 39)) (15, 39)
    (Some (mkParent "ExportDefaultDeclaration" None (0, 40)
             (Some (mkAncestor "Program" (0, 40))))).

Definition anonymous_context : Context := mkContext [] anonymous_source.

(** The fix [validate] offers for it under the default options. *)
Definition anonymous_fix : Fix :=
  mkFix anonymous_node
    (mkFixerOptions (Some function_expression)
       (UNNAMED_FUNCTION_TEMPLATES (Some function_expression)) (15, 39))
    None.

(** The fix [validate] offers for [add_node] under [add_context]. *)
Definition add_fix : Fix :=
  mkFix add_node
    (mkFixerOptions (Some function_expression)
       (NAMED_FUNCTION_TEMPLATES (Some function_expression)) (0, 52))
    None.

(** The text in front of the [{body}] placeholder when it is replaced:
    the earlier fragments are in, the name is not. *)
Definition textBeforeBody (target : Variant) (parts : Parts) : string :=
  let typeAnnotation := or_empty (part_typeAnnotation parts) in
  let typeParams := or_empty (part_typeParams parts) in
  let params := or_empty (part_params parts) in
  let returnType := or_empty (part_returnType parts) in
  match target with
  | function_declaration =>
      "function {name}" ++ typeParams ++ "(" ++ params ++ ")"
        ++ returnType ++ " "
  | arrow_function =>
      "var {name}" ++ typeAnnotation ++ " = " ++ typeParams
        ++ "(" ++ params ++ ")" ++ returnType ++ " => "
  | function_expression =>
      "var {name}" ++ typeAnnotation ++ " = function" ++ typeParams
        ++ "(" ++ params ++ ")" ++ returnType ++ " "
  end.

(** [parts] with another body. *)
Definition withBody (parts : Parts) (body : string) : Parts :=
  mkParts (part_typeAnnotation parts) (part_typeParams parts)
    (part_params parts) (part_returnType parts) (Some body)
    (part_name parts).

(** [export default () => null;]. *)
Definition plain_source : string := "export default () => null;".

Definition plain_node : Node :=
  mkNode ArrowFunctionExpression None [] None None
    (mkBody "Literal" (21, 25)) (15, 25)
    (Some (mkParent "ExportDefaultDeclaration" None (0, 26)
             (Some (mkAncestor "Program" (0, 26))))).

Definition plain_context : Context := mkContext [] plain_source.

Definition plain_fix : Fix :=
  mkFix plain_node
    (mkFixerOptions (Some function_expression)
       (UNNAMED_FUNCTION_TEMPLATES (Some function_expression)) (15, 25))
    None.

(** Options [[{ namedComponents: [] }]] on the [Add] file. *)
Definition empty_array_context : Context :=
  mkContext [mkConfiguration (Some (Array [])) None None] add_source.

Definition empty_array_fix : Fix :=
  mkFix add_node (mkFixerOptions None None (0, 52)) None.

(** Fragments of the [Add] function with a block body. *)
Definition add_parts : Parts :=
  mkParts None None (Some "a: number, b: number") (Some ": number")
    (Some "{ return a + b }") (Some "Add").

(** A body that holds the replacement pattern [$']. *)
Definition dollar_parts : Parts :=
  mkParts None None (Some "") None (Some "{ return '$' }") (Some "Price").

(* ------------------------------------------------------------------ *)
(** ** The rewritten file and its second analysis *)
(* ------------------------------------------------------------------ *)

(** Options [[{ namedComponents: ['function-declaration',
    'arrow-function'] }]] on the [Add] file. *)
Definition either_context : Context :=
  mkContext
    [mkConfiguration
       (Some (Array [function_declaration; arrow_function])) None None]
    add_source.















(** Both general lists have a head for which there is a template: every
    report then carries a message id, a message and a template. *)
Definition generalTemplatesExist (context : Context) : Prop :=
  NAMED_FUNCTION_TEMPLATES (hd_error (namedConfig context)) <> None /\
  UNNAMED_FUNCTION_TEMPLATES (hd_error (unnamedConfig context)) <> None.

(** A function declaration that is not a default export has an
    identifier, as the grammar requires. *)
Definition declarationHasId (node : Node) : Prop :=
  node_type node = FunctionDeclaration ->
  isDefaultExport node = false ->
  node_id node <> None.

(** What the host's reporter needs of the reports not to throw: each has
    a message, and its fix callback, which the reporter calls at once,
    returns. *)
Definition reporterAccepts (context : Context) (reported : list Diagnostic)
  : Prop :=
  forall d, In d reported ->
    diag_message d <> None /\
    forall f, diag_fix d = Some f ->
      exists edit, runFix context f = inr edit.

(* ------------------------------------------------------------------ *)
(** ** The sample functions of the TypeScript test module *)
(* ------------------------------------------------------------------ *)

(** The object literal [mapping] of [isValid]: a property read that finds
    nothing is [None]. *)
Definition bracket_mapping (c : ascii) : option ascii :=
  if Ascii.eqb c "(" then Some ")"%char
  else if Ascii.eqb c "{" then Some "}"%char
  else if Ascii.eqb c "[" then Some "]"%char
  else None.

(** The loop of [isValid] from position [i] on, [s] being the rest of the
    string and the head of [stack] the last element pushed. *)
Fixpoint isValid_from (stack : list ascii) (s : string) : bool :=
  match s with
  | EmptyString =>
      match stack with
      | [] => true
      | _ :: _ => false
      end
  | String c rest =>
      match bracket_mapping c with
      | Some _ => isValid_from (c :: stack) rest
      | None =>
          match stack with
          | [] => false
          | top :: below =>
              match bracket_mapping top with
              | Some closer =>
                  if Ascii.eqb closer c then isValid_from below rest
                  else false
              | None => false
              end
          end
      end
  end.

(** [isValid]: the loop from the first character with an empty stack. *)
Definition isValid (s : string) : bool := isValid_from [] s.

(** Well-bracketed strings: empty, or an opening bracket, a well-bracketed
    string, the matching closing bracket and a well-bracketed string. *)
Inductive Balanced : string -> Prop :=
  | Balanced_empty : Balanced ""
  | Balanced_pair (opener closer : ascii) (inner rest : string) :
      bracket_mapping opener = Some closer ->
      Balanced inner ->
      Balanced rest ->
      Balanced (String opener (inner ++ String closer rest)).

(** What is left to read when [stack] holds the brackets still open. *)
Fixpoint Closes (stack : list ascii) (s : string) : Prop :=
  match stack with
  | [] => Balanced s
  | top :: below =>
      exists inner closer rest,
        s = inner ++ String closer rest /\
        Balanced inner /\
        bracket_mapping top = Some closer /\
        Closes below rest
  end.

(** [helper] of [generateParenthesis]: the strings it pushes onto
    [result], in the order it pushes them. *)
Equations? generateParenthesis_helper (n : nat) (partial : string)
    (opened closed : nat) : list string
    by wf (2 * (n - opened) + (opened - closed)) lt :=
  generateParenthesis_helper n partial opened closed
    with Nat.eqb opened closed && Nat.eqb opened n => {
    | true => [partial]
    | false with lt_dec opened n, lt_dec closed opened => {
        | left _, left _ =>
            generateParenthesis_helper n (partial ++ "(") (opened + 1) closed
            ++ generateParenthesis_helper n (partial ++ ")") opened
                 (closed + 1)
        | left _, right _ =>
            generateParenthesis_helper n (partial ++ "(") (opened + 1) closed
        | right _, left _ =>
            generateParenthesis_helper n (partial ++ ")") opened (closed + 1)
        | right _, right _ => []
      }
    }.
Proof. all: lia. Qed.

(** [generateParenthesis], for a natural number [n]: [helper("", 0, 0)]
    and the strings it has pushed. *)
Definition generateParenthesis (n : nat) : list string :=
  generateParenthesis_helper n "" 0 0.

(** Every character is [(] or [)]. *)
Fixpoint onlyParentheses (s : string) : bool :=
  match s with
  | EmptyString => true
  | String c rest =>
      (Ascii.eqb c "(" || Ascii.eqb c ")") && onlyParentheses rest
  end.

(** How often [c] occurs in [s]. *)
Fixpoint occurrences (c : ascii) (s : string) : nat :=
  match s with
  | EmptyString => 0
  | String d rest => (if Ascii.eqb d c then 1 else 0) + occurrences c rest
  end.

(** The object literal [mapping] of [letterCombinations], keyed by the
    digits 2 to 9. *)
Definition keypad_mapping (digit : ascii) : option string :=
  if Ascii.eqb digit "2" then Some "abc"
  else if Ascii.eqb digit "3" then Some "def"
  else if Ascii.eqb digit "4" then Some "ghi"
  else if Ascii.eqb digit "5" then Some "jkl"
  else if Ascii.eqb digit "6" then Some "mno"
  else if Ascii.eqb digit "7" then Some "pqrs"
  else if Ascii.eqb digit "8" then Some "tuv"
  else if Ascii.eqb digit "9" then Some "wxyz"
  else None.

(** The loop [for (i < letters.length)]: one call of [next] per letter,
    the pushes of the calls in sequence. *)
Fixpoint each_letter (next : ascii -> Exc (list string)) (letters : string)
  : Exc (list string) :=
  match letters with
  | EmptyString => ret []
  | String c rest =>
      first <- next c ;;
      others <- each_letter next rest ;;
      ret (first ++ others)%list
  end.

(** [helper(partial, index, string)] with [remaining] the digits from
    [index] on: the strings pushed onto [result]. Reading [length] of a
    missing mapping entry throws. *)
Fixpoint letterCombinations_helper (remaining : string) (prefix : string)
  : Exc (list string) :=
  match remaining with
  | EmptyString => ret [prefix]
  | String digit rest =>
      letters <- member (keypad_mapping digit) ;;
      each_letter
        (fun c => letterCombinations_helper rest (prefix ++ String c ""))
        letters
  end.

(** [letterCombinations]: the empty string is falsy and gives an empty
    list at once. *)
Definition letterCombinations (digits : string) : Exc (list string) :=
  if digits =? "" then ret [] else letterCombinations_helper digits "".

(** Every character has an entry in the mapping. *)
Fixpoint allKeypadDigits (digits : string) : bool :=
  match digits with
  | EmptyString => true
  | String d rest =>
      match keypad_mapping d with
      | Some _ => allKeypadDigits rest
      | None => false
      end
  end.

(** The product of the letter counts of the digits. *)
Fixpoint combinationCount (digits : string) : nat :=
  match digits with
  | EmptyString => 1
  | String d rest =>
      String.length (or_empty (keypad_mapping d)) * combinationCount rest
  end.

(** [s] picks, for each digit in turn, one of the digit's letters. *)
Fixpoint spells (digits s : string) : Prop :=
  match digits, s with
  | EmptyString, EmptyString => True
  | String d rest, String c s' =>
      (exists letters,
         keypad_mapping d = Some letters /\ occursIn c letters = true) /\
      spells rest s'
  | _, _ => False
  end.

(** The strings [letterCombinations_helper] pushes when no digit is
    missing from the mapping. *)
Fixpoint combinationsFrom (remaining prefix : string) : list string :=
  match remaining with
  | EmptyString => [prefix]
  | String digit rest =>
      flat_map (fun c => combinationsFrom rest (prefix ++ String c ""))
        (list_ascii_of_string (or_empty (keypad_mapping digit)))
  end.

(** [x.split("").reverse().join("")]. *)
Definition reverse (x : string) : string :=
  string_of_list_ascii (rev (list_ascii_of_string x)).

(** [String.prototype.substring(a, b)] at non-negative offsets: the
    smaller offset is the start, and both are clamped to the length. *)
Definition js_substring (str : string) (a b : nat) : string :=
  substring (Nat.min a b) (Nat.max a b - Nat.min a b) str.

(** The two variables the loops of [findLongestPalindrome] update. *)
Record Longest : Type := mkLongest {
  longestPalindrome : string;
  longestPalindromeLength : nat
}.

(** The body of the inner loop at [i], [j]. *)
Definition considerSubstring (str : string) (i j : nat) (state : Longest)
  : Longest :=
  let subString := js_substring str i (j + 1) in
  if subString =? reverse subString then
    if Nat.ltb (longestPalindromeLength state) (String.length subString)
    then mkLongest subString (String.length subString)
    else state
  else state.

(** [for (j; j < str.length; j += 1)], with [count] iterations to go. *)
Fixpoint innerLoop (str : string) (i j count : nat) (state : Longest)
  : Longest :=
  match count with
  | O => state
  | S count' =>
      innerLoop str i (j + 1) count' (considerSubstring str i j state)
  end.

(** [for (i; i < str.length; i += 1)], with [count] iterations to go. *)
Fixpoint outerLoop (str : string) (i count : nat) (state : Longest)
  : Longest :=
  match count with
  | O => state
  | S count' =>
      outerLoop str (i + 1) count'
        (innerLoop str i i (String.length str - i) state)
  end.

(** [findLongestPalindrome]: both loops from 0, starting from the empty
    string and length 0. *)
Definition findLongestPalindrome (str : string) : string :=
  longestPalindrome
    (outerLoop str 0 (String.length str) (mkLongest "" 0)).

(** What the two variables satisfy once the pairs in [seen] have been
    considered. *)
Definition LongestSoFar (str : string) (seen : nat -> nat -> Prop)
    (state : Longest) : Prop :=
  longestPalindromeLength state = String.length (longestPalindrome state) /\
  longestPalindrome state = reverse (longestPalindrome state) /\
  (longestPalindrome state = "" \/
   exists i j,
     i <= j /\ j < String.length str /\
     longestPalindrome state = js_substring str i (j + 1)) /\
  forall i j,
    seen i j ->
    js_substring str i (j + 1) = reverse (js_substring str i (j + 1)) ->
    String.length (js_substring str i (j + 1))
    <= longestPalindromeLength state.

(** [Array.prototype.map]: the callback receives the element and its
    index. *)
Fixpoint map_from {A B : Type} (callback : A -> nat -> B) (index : nat)
    (array : list A) : list B :=
  match array with
  | [] => []
  | element :: rest =>
      callback element index :: map_from callback (S index) rest
  end.

(** [array.map(callback)]. *)
Definition Array_map {A B : Type} (callback : A -> nat -> B)
    (array : list A) : list B :=
  map_from callback 0 array.

(** [rotate2DArrayLeft] over any type of elements; reading past the end
    of a row gives [undefined]. *)
Definition rotate2DArrayLeft {V : Type} (undefined : V)
    (array : list (list V)) : list (list V) :=
  Array_map
    (fun _row i =>
       Array_map
         (fun _col j =>
            nth (List.length array - i - 1) (nth j array []) undefined)
         array)
    array.

(** Every row is as long as the array has rows. *)
Definition square {V : Type} (array : list (list V)) : Prop :=
  forall row, In row array -> List.length row = List.length array.





(** A finite JavaScript number, as the rational it denotes. *)
Definition Number : Type := QArith_base.Q.

Definition number_of_nat (n : nat) : Number :=
  QArith_base.inject_Z (Z.of_nat n).


Definition lessThan (x y : Number) : bool :=
  if QArith_base.Qlt_le_dec x y then true else false.

(** How often the body of
    [for (let i = 0; i < numRows; i += 1) rows.push("")] runs: once for
    every natural number below [numRows], that is [numRows] rounded up,
    and not at all when [numRows] is not positive. *)
Definition rowCount (numRows : Number) : nat :=
  Z.to_nat (Qround.Qceiling numRows).





(* ------------------------------------------------------------------ *)
(** ** Basic facts about the helpers *)
(* ------------------------------------------------------------------ *)

Lemma Variant_eqb_eq (a b : Variant) : Variant_eqb a b = true <-> a = b.
Proof. destruct a, b; simpl; split; congruence. Qed.

Lemma Variant_eqb_refl (a : Variant) : Variant_eqb a a = true.
Proof. now destruct a. Qed.

Lemma NodeType_eqb_eq (a b : NodeType) : NodeType_eqb a b = true <-> a = b.
Proof. destruct a, b; simpl; split; congruence. Qed.

Lemma includes_In (l : list Variant) (v : Variant) :
  includes l v = true <-> In v l.
Proof.
  unfold includes. rewrite existsb_exists. split.
  - intros [w [Hin Heq]]. apply Variant_eqb_eq in Heq. now subst.
  - intros Hin. exists v. split; [assumption | apply Variant_eqb_refl].
Qed.

Lemma includes_hd (l : list Variant) (v : Variant) :
  hd_error l = Some v -> includes l v = true.
Proof.
  destruct l as [|w l]; simpl; [discriminate|].
  intros [= ->]. now rewrite Variant_eqb_refl.
Qed.

Lemma is_variant_eq (o : option Variant) (v : Variant) :
  is_variant o v = true <-> o = Some v.
Proof.
  destruct o as [w|]; simpl.
  - rewrite Variant_eqb_eq. split; congruence.
  - split; discriminate.
Qed.

Lemma truthy_spec (x : option string) :
  truthy x = true <-> exists s, x = Some s /\ s <> "".
Proof.
  destruct x as [s|]; simpl.
  - destruct (String.eqb_spec s ""); simpl; split.
    + discriminate.
    + intros [t [[= <-] Hne]]. contradiction.
    + intros _. now exists s.
    + reflexivity.
  - split; [discriminate | intros [s [H _]]; discriminate].
Qed.

(** A default export is a function declaration, and a function
    declaration has a name without its parent being read. *)
Lemma isDefaultExport_declaration (node : Node) :
  isDefaultExport node = true ->
  node_type node = FunctionDeclaration /\ hasName node = inr true.
Proof.
  unfold isDefaultExport, hasName. intros H.
  apply andb_true_iff in H. destruct H as [Ht _].
  rewrite Ht. split; [now apply NodeType_eqb_eq | reflexivity].
Qed.

Lemma isDefaultExport_spec (node : Node) :
  isDefaultExport node = true <-> defaultExportedDeclaration node.
Proof.
  unfold isDefaultExport, defaultExportedDeclaration.
  rewrite andb_true_iff, NodeType_eqb_eq.
  destruct (node_parent node) as [p|].
  - rewrite String.eqb_eq. split.
    + intros [Ht Hp]. split; [assumption | now exists p].
    + intros [Ht [q [[= <-] Hq]]]. now split.
  - split.
    + intros [_ H]. discriminate.
    + intros [_ [q [H _]]]. discriminate.
Qed.

Lemma hasOneUnconstrainedTypeParam_spec (node : Node) :
  hasOneUnconstrainedTypeParam node = true <-> oneUnconstrainedTypeParam node.
Proof.
  unfold hasOneUnconstrainedTypeParam, oneUnconstrainedTypeParam.
  destruct (node_typeParameters node) as [tps|].
  - destruct (tps_params tps) as [|p [|q rest]] eqn:Eps.
    + split; [discriminate|]. intros [t [q [[= <-] [H _]]]]. congruence.
    + destruct (tp_constraint p) eqn:Ec; split.
      * discriminate.
      * intros [t [q [[= <-] [H Hc]]]]. rewrite Eps in H.
        injection H as <-. congruence.
      * intros _. now exists tps, p.
      * reflexivity.
    + split; [discriminate|]. intros [t [u [[= <-] [H _]]]]. congruence.
  - split; [discriminate|]. intros [t [q [H _]]]. discriminate.
Qed.

(** The four configured lists are read off the first options object. *)
Lemma configs_of_options (n u : option OptionValue)
    (d : option DefaultExportOptions) (rest : list Configuration)
    (source : string) :
  let context := mkContext (mkConfiguration n u d :: rest) source in
  namedConfig context = concat_onto_empty (or_literal n function_declaration)
  /\ unnamedConfig context
     = concat_onto_empty (or_literal u function_expression)
  /\ defaultExportNamedConfig context
     = concat_onto_empty
         (or_literal
            (match d with Some o => de_namedComponents o | None => None end)
            function_declaration)
  /\ defaultExportUnnamedConfig context
     = concat_onto_empty
         (or_literal
            (match d with Some o => de_unnamedComponents o | None => None end)
            function_expression).
Proof. destruct d; repeat split; reflexivity. Qed.

(** On a default export the unnamed list is never consulted. *)
Lemma applyConfig_named_ignores_unnamed (context : Context)
    (functionType : Variant) (node : Node)
    (named unnamed unnamed' : list Variant) :
  hasName node = inr true ->
  applyConfig context functionType node named unnamed
  = applyConfig context functionType node named unnamed'.
Proof.
  intros H. unfold applyConfig. rewrite H. cbn.
  destruct (includes named functionType); reflexivity.
Qed.

(** [applyConfig] reads the context only through the source text and the
    two general lists. *)
Lemma applyConfig_context (context context' : Context)
    (functionType : Variant) (node : Node) (named unnamed : list Variant) :
  sourceText context = sourceText context' ->
  namedConfig context = namedConfig context' ->
  unnamedConfig context = unnamedConfig context' ->
  applyConfig context functionType node named unnamed
  = applyConfig context' functionType node named unnamed.
Proof.
  intros Hs Hn Hu. unfold applyConfig, report, getFixer.
  rewrite Hs, Hn, Hu. reflexivity.
Qed.

Lemma applyConfig_named_context (context context' : Context)
    (functionType : Variant) (node : Node)
    (named unnamed unnamed' : list Variant) :
  hasName node = inr true ->
  sourceText context = sourceText context' ->
  namedConfig context = namedConfig context' ->
  unnamedConfig context = unnamedConfig context' ->
  applyConfig context functionType node named unnamed
  = applyConfig context' functionType node named unnamed'.
Proof.
  intros Hname Hs Hn Hu.
  rewrite (applyConfig_context context context') by assumption.
  now apply applyConfig_named_ignores_unnamed.
Qed.

(* ------------------------------------------------------------------ *)
(** ** Defaults of the options *)
(* ------------------------------------------------------------------ *)

(** C7. With no options at all, with an empty options object, or with a
    single option left out, the named list is [function-declaration] alone
    and the unnamed list is [function-expression] alone, for the general
    pair and for the [defaultExport] pair alike (the latter whatever the
    general options are). An option written as a literal gives the same
    four lists, and the same diagnostics on every node, as the same option
    written as a one-element array. *)
Theorem C7_option_defaults :
  (forall source,
     let context := mkContext [] source in
     namedConfig context = [function_declaration] /\
     unnamedConfig context = [function_expression] /\
     defaultExportNamedConfig context = [function_declaration] /\
     defaultExportUnnamedConfig context = [function_expression]) /\
  (forall n u d dn du rest source,
     namedConfig (mkContext (mkConfiguration None u d :: rest) source)
     = [function_declaration] /\
     unnamedConfig (mkContext (mkConfiguration n None d :: rest) source)
     = [function_expression] /\
     defaultExportNamedConfig
       (mkContext (mkConfiguration n u None :: rest) source)
     = [function_declaration] /\
     defaultExportUnnamedConfig
       (mkContext (mkConfiguration n u None :: rest) source)
     = [function_expression] /\
     defaultExportNamedConfig
       (mkContext
          (mkConfiguration n u (Some (mkDefaultExportOptions None du))
             :: rest) source)
     = [function_declaration] /\
     defaultExportUnnamedConfig
       (mkContext
          (mkConfiguration n u (Some (mkDefaultExportOptions dn None))
             :: rest) source)
     = [function_expression]) /\
  (forall v, concat_onto_empty (Literal v) = concat_onto_empty (Array [v])) /\
  (forall c rest source,
     let literal := mkContext (c :: rest) source in
     let array := mkContext (arrayFormConfiguration c :: rest) source in
     namedConfig literal = namedConfig array /\
     unnamedConfig literal = unnamedConfig array /\
     defaultExportNamedConfig literal = defaultExportNamedConfig array /\
     defaultExportUnnamedConfig literal = defaultExportUnnamedConfig array /\
     forall components node functionType,
       validate literal components node functionType
       = validate array components node functionType).
Proof.
  split; [| split; [| split]].
  - intros source. cbn. repeat split; reflexivity.
  - intros n u d dn du rest source. repeat split; reflexivity.
  - reflexivity.
  - intros [n u d] rest source.
    destruct n as [[vn|ln]|], u as [[vu|lu]|],
      d as [[[[vdn|ldn]|] [[vdu|ldu]|]]|];
      cbn; repeat split; reflexivity.
Qed.

(* ------------------------------------------------------------------ *)
(** ** Nodes the rule passes over *)
(* ------------------------------------------------------------------ *)

(** C9. A node the component detection does not recognise yields no
    diagnostic (hence no fix), whatever its shape, the style it is
    visited with and the configuration. *)
Theorem C9_not_a_component_is_silent
    (context : Context) (components : Node -> bool)
    (node : Node) (functionType : Variant) :
  components node = false ->
  validate context components node functionType = inr [] /\
  visit context components node = inr [].
Proof.
  intros H. unfold visit, validate. rewrite H. split; reflexivity.
Qed.

Lemma C9_not_a_component_is_silent_witness :
  always false add_node = false /\
  validate add_context (always false) add_node arrow_function = inr [] /\
  visit add_context (always false) add_node = inr [].
Proof.
  split; [reflexivity|].
  apply (C9_not_a_component_is_silent add_context (always false) add_node
           arrow_function).
  reflexivity.
Defined.

(** C8. A function whose immediate parent is an object-literal property
    yields no diagnostic: [validate] returns before the node is compared
    with any configured list. *)
Theorem C8_property_value_is_skipped
    (context : Context) (components : Node -> bool)
    (node : Node) (functionType : Variant) (p : Parent) :
  node_parent node = Some p ->
  parent_type p = "Property" ->
  validate context components node functionType = inr [] /\
  visit context components node = inr [].
Proof.
  intros Hp Ht. unfold visit, validate. rewrite Hp, Ht.
  destruct (components node); split; reflexivity.
Qed.

Lemma C8_property_value_is_skipped_witness :
  node_parent method_node
  = Some (mkParent "Property" None (16, 33)
            (Some (mkAncestor "ObjectExpression" (14, 35)))) /\
  validate add_context (always true) method_node arrow_function = inr [] /\
  visit add_context (always true) method_node = inr [].
Proof.
  split; [reflexivity|].
  apply (C8_property_value_is_skipped add_context (always true) method_node
           arrow_function
           (mkParent "Property" None (16, 33)
              (Some (mkAncestor "ObjectExpression" (14, 35)))));
    reflexivity.
Defined.

(* ------------------------------------------------------------------ *)
(** ** Conformance *)
(* ------------------------------------------------------------------ *)

Lemma validate_member (context : Context) (components : Node -> bool)
    (node : Node) (functionType : Variant) (selected : list Variant) :
  selectedList context node = inr selected ->
  includes selected functionType = true ->
  validate context components node functionType = inr [].
Proof.
  unfold selectedList, appliedPair, validate.
  destruct (hasName node) as [e|named] eqn:Hn; cbn; [discriminate|].
  intros [= <-] Hin.
  destruct (components node); cbn; [|reflexivity].
  destruct (match node_parent node with
            | Some p => parent_type p =? "Property"
            | None => false
            end); [reflexivity|].
  unfold applyConfig. rewrite Hn.
  destruct (isDefaultExport node), named; cbn [fst snd] in Hin;
    cbn; rewrite Hin; reflexivity.
Qed.

(** C3. When the style a node is visited with occurs anywhere in the
    list selected for it (the named or unnamed list of the pair that
    applies), [validate] reports nothing. *)
Theorem C3_member_of_selected_list_conforms
    (context : Context) (components : Node -> bool)
    (node : Node) (functionType : Variant) (selected : list Variant) :
  selectedList context node = inr selected ->
  In functionType selected ->
  validate context components node functionType = inr [].
Proof.
  intros Hsel Hin. apply includes_In in Hin.
  now apply (validate_member context components node functionType selected).
Qed.

Lemma C3_member_of_selected_list_conforms_witness :
  functionTypeOf (node_type add_node) = arrow_function /\
  selectedList either_context add_node
  = inr [function_declaration; arrow_function] /\
  In arrow_function [function_declaration; arrow_function] /\
  validate either_context (always true) add_node arrow_function = inr [] /\
  visit either_context (always true) add_node = inr [].
Proof.
  assert (Hin : In arrow_function [function_declaration; arrow_function]).
  { right. now left. }
  assert (Hv : validate either_context (always true) add_node arrow_function
               = inr []).
  { exact (C3_member_of_selected_list_conforms either_context (always true)
             add_node arrow_function [function_declaration; arrow_function]
             eq_refl Hin). }
  split; [reflexivity|]. split; [reflexivity|]. split; [exact Hin|].
  split; exact Hv.
Defined.

(** C10. A node taken for a default export is a function declaration and
    so has a name; hence the [unnamedComponents] option of [defaultExport]
    never changes what [validate] hands to the reporter: any two values
    of it, or leaving [defaultExport] out where it holds nothing else,
    give the same result on every node. *)
Theorem C10_defaultExport_unnamed_is_dead :
  (forall node,
     isDefaultExport node = true ->
     node_type node = FunctionDeclaration /\ hasName node = inr true) /\
  (forall n u dn du du' rest source components node functionType,
     validate
       (mkContext
          (mkConfiguration n u (Some (mkDefaultExportOptions dn du)) :: rest)
          source) components node functionType
     = validate
         (mkContext
            (mkConfiguration n u (Some (mkDefaultExportOptions dn du'))
               :: rest)
            source) components node functionType) /\
  (forall n u du rest source components node functionType,
     validate
       (mkContext
          (mkConfiguration n u (Some (mkDefaultExportOptions None du))
             :: rest)
          source) components node functionType
     = validate
         (mkContext (mkConfiguration n u None :: rest) source)
         components node functionType).
Proof.
  split; [exact isDefaultExport_declaration|].
  split.
  - intros n u dn du du' rest source components node functionType.
    unfold validate.
    destruct (components node); cbn [negb]; [|reflexivity].
    destruct (match node_parent node with
              | Some p => parent_type p =? "Property"
              | None => false
              end); [reflexivity|].
    destruct (isDefaultExport node) eqn:Hd; [|reflexivity].
    apply isDefaultExport_declaration in Hd. destruct Hd as [_ Hn].
    apply applyConfig_named_context; [assumption | reflexivity ..].
  - intros n u du rest source components node functionType.
    unfold validate.
    destruct (components node); cbn [negb]; [|reflexivity].
    destruct (match node_parent node with
              | Some p => parent_type p =? "Property"
              | None => false
              end); [reflexivity|].
    destruct (isDefaultExport node) eqn:Hd; [|reflexivity].
    apply isDefaultExport_declaration in Hd. destruct Hd as [_ Hn].
    apply applyConfig_named_context; [assumption | reflexivity ..].
Qed.

Lemma C10_defaultExport_unnamed_is_dead_witness :
  isDefaultExport hello_node = true /\
  node_type hello_node = FunctionDeclaration /\
  hasName hello_node = inr true.
Proof.
  split; [reflexivity|].
  apply (proj1 C10_defaultExport_unnamed_is_dead hello_node).
  reflexivity.
Defined.

(* ------------------------------------------------------------------ *)
(** ** What a report contains *)
(* ------------------------------------------------------------------ *)

Lemma getFixer_inv (context : Context) (node : Node) (opts : FixerOptions)
    (fix_ : option Fix) :
  getFixer context node opts = inr fix_ ->
  exists typeAnnotation,
    getTypeAnnotation node (sourceText context) = inr typeAnnotation /\
    fix_ = if guarded node opts typeAnnotation then None
           else Some (mkFix node opts typeAnnotation).
Proof.
  unfold getFixer, guarded.
  destruct (getTypeAnnotation node (sourceText context)) as [e|ta]; cbn;
    [discriminate|].
  intros H. exists ta. split; [reflexivity|].
  destruct (is_variant (fo_type opts) function_declaration && truthy ta);
    cbn in *; [congruence|].
  destruct (is_variant (fo_type opts) arrow_function
            && hasOneUnconstrainedTypeParam node); cbn in *; [congruence|].
  destruct (isUnfixableBecauseOfExport node); cbn in *; [congruence|].
  destruct (isFunctionExpressionWithName node); cbn in *; congruence.
Qed.

Arguments getFixer : simpl never.

(** Case analysis on the outcome of the [getFixer] call in the goal. *)
Ltac case_getFixer fx Hf :=
  match goal with
  | |- context [getFixer ?c ?n ?o] =>
      let e := fresh "e" in
      destruct (getFixer c n o) as [e|fx] eqn:Hf; cbn
  end.

(** Every successful [validate] that reports anything reports exactly one
    diagnostic, built from the head of a general list. *)
Lemma validate_inv (context : Context) (components : Node -> bool)
    (node : Node) (functionType : Variant)
    (reported : list Diagnostic) (d : Diagnostic) :
  validate context components node functionType = inr reported ->
  In d reported ->
  exists named range fix_,
    let target := hd_error (reportedList context named) in
    hasName node = inr named /\
    components node = true /\
    includes
      (if named then fst (appliedPair context node)
       else snd (appliedPair context node)) functionType = false /\
    (if named && negb (NodeType_eqb (node_type node) FunctionDeclaration)
     then exists p g,
            node_parent node = Some p /\
            parent_parent p = Some g /\
            range = anc_range g
     else range = node_range node) /\
    getFixer context node
      (mkFixerOptions target (reportedTemplate named target) range)
    = inr fix_ /\
    reported = [d] /\
    d = mkDiagnostic node (messages target) target fix_.
Proof.
  unfold validate, appliedPair.
  destruct (components node); cbn [negb]; [|intros [= <-] []].
  destruct (match node_parent node with
            | Some p => parent_type p =? "Property"
            | None => false
            end); [intros [= <-] []|].
  assert (Hcore : forall a b,
    applyConfig context functionType node a b = inr reported ->
    In d reported ->
    exists named range fix_,
      hasName node = inr named /\
      true = true /\
      includes (if named then a else b) functionType = false /\
      (if named && negb (NodeType_eqb (node_type node) FunctionDeclaration)
       then exists p g,
              node_parent node = Some p /\
              parent_parent p = Some g /\
              range = anc_range g
       else range = node_range node) /\
      getFixer context node
        (mkFixerOptions (hd_error (reportedList context named))
           (reportedTemplate named (hd_error (reportedList context named)))
           range)
      = inr fix_ /\
      reported = [d] /\
      d = mkDiagnostic node (messages (hd_error (reportedList context named)))
            (hd_error (reportedList context named)) fix_).
  { intros a b. unfold applyConfig, report.
    destruct (hasName node) as [e|named] eqn:Hn; cbn; [discriminate|].
    destruct named; cbn.
    - destruct (includes a functionType) eqn:Hi; cbn; [intros [= <-] []|].
      destruct (NodeType_eqb (node_type node) FunctionDeclaration) eqn:Ht;
        cbn.
      + case_getFixer fx Hf; [discriminate|].
        intros [= <-] [<-|[]].
        exists true, (node_range node), fx. cbn.
        repeat split; try reflexivity; assumption.
      + destruct (node_parent node) as [p|]; cbn; [|discriminate].
        destruct (parent_parent p) as [g|] eqn:Hg; cbn; [|discriminate].
        case_getFixer fx Hf; [discriminate|].
        intros [= <-] [<-|[]].
        exists true, (anc_range g), fx. cbn.
        repeat split; try reflexivity; try assumption.
        exists p, g. now repeat split.
    - destruct (includes b functionType) eqn:Hi; cbn; [intros [= <-] []|].
      case_getFixer fx Hf; [discriminate|].
      intros [= <-] [<-|[]].
      exists false, (node_range node), fx. cbn.
      repeat split; try reflexivity; assumption. }
  destruct (isDefaultExport node); intros Hv Hin;
    destruct (Hcore _ _ Hv Hin) as (named & range & fx & H);
    exists named, range, fx; exact H.
Qed.

(* ------------------------------------------------------------------ *)
(** ** The fixability guard *)
(* ------------------------------------------------------------------ *)

Lemma getTypeAnnotation_truthy (node : Node) (source : string)
    (typeAnnotation : option string) :
  getTypeAnnotation node source = inr typeAnnotation ->
  (truthy typeAnnotation = true <-> bindingHasTypeAnnotation source node).
Proof.
  unfold getTypeAnnotation, hasName, bindingHasTypeAnnotation,
    boundToVariable.
  destruct (NodeType_eqb (node_type node) FunctionDeclaration) eqn:Ht; cbn.
  - apply NodeType_eqb_eq in Ht. intros [= <-]. split; [discriminate|].
    intros (p & i & r & [Hne _] & _). contradiction.
  - assert (Hne : node_type node <> FunctionDeclaration).
    { intros E. apply NodeType_eqb_eq in E. congruence. }
    destruct (node_parent node) as [p|]; cbn; [|discriminate].
    destruct (String.eqb_spec (parent_type p) "VariableDeclarator")
      as [Hv|Hv]; cbn.
    + destruct (parent_id p) as [i|] eqn:Hi; cbn; [|discriminate].
      intros [= <-]. unfold getNodeText.
      destruct (id_typeAnnotation i) as [r|] eqn:Hr.
      * rewrite truthy_spec. split.
        -- intros (s & [= <-] & Hs). exists p, i, r. now repeat split.
        -- intros (q & j & r' & (_ & [= <-] & _) & Hj & Hr' & Hs).
           rewrite Hi in Hj. injection Hj as <-.
           rewrite Hr in Hr'. injection Hr' as <-.
           now eexists.
      * split; [discriminate|].
        intros (q & j & r' & (_ & [= <-] & _) & Hj & Hr' & _).
        rewrite Hi in Hj. injection Hj as <-. congruence.
    + intros [= <-]. split; [discriminate|].
      intros (q & j & r' & (_ & [= <-] & Hq) & _). contradiction.
Qed.

Lemma isFunctionExpressionWithName_spec (node : Node) :
  ownIdWellFormed node ->
  (isFunctionExpressionWithName node = true <->
   selfNamedFunctionExpression node).
Proof.
  unfold ownIdWellFormed, isFunctionExpressionWithName,
    selfNamedFunctionExpression.
  intros Hwf. rewrite andb_true_iff, NodeType_eqb_eq.
  destruct (node_id node) as [i|].
  - specialize (Hwf i eq_refl).
    apply truthy_spec in Hwf. rewrite Hwf.
    split; intros [Ht _]; split; (assumption || reflexivity || discriminate).
  - split; intros [Ht H]; [discriminate | contradiction].
Qed.

(** C2. Whenever [validate] reports a violation it reports exactly one
    diagnostic, on the node itself, and the diagnostic carries no fix
    exactly when one of the four guard conditions holds: the target is
    [function-declaration] and the variable binding has a non-empty type
    annotation; the target is [arrow-function] and there is exactly one
    type parameter, unconstrained; the node is a default-exported function
    declaration; the node is a function expression with an identifier of
    its own. A fix that is offered rewrites towards the style named by
    the message id. *)
Theorem C2_fix_absent_iff_guarded
    (context : Context) (components : Node -> bool)
    (node : Node) (functionType : Variant)
    (reported : list Diagnostic) (d : Diagnostic) :
  ownIdWellFormed node ->
  validate context components node functionType = inr reported ->
  In d reported ->
  reported = [d] /\
  diag_node d = node /\
  (diag_fix d = None <->
     (diag_messageId d = Some function_declaration /\
      bindingHasTypeAnnotation (sourceText context) node) \/
     (diag_messageId d = Some arrow_function /\
      oneUnconstrainedTypeParam node) \/
     defaultExportedDeclaration node \/
     selfNamedFunctionExpression node) /\
  (forall f, diag_fix d = Some f -> fo_type (fix_options f) = diag_messageId d).
Proof.
  intros Hwf Hv Hin.
  destruct (validate_inv _ _ _ _ _ _ Hv Hin)
    as (named & range & fx & _ & _ & _ & _ & Hf & Hr & Hd).
  apply getFixer_inv in Hf. destruct Hf as (ta & Hta & Hfx).
  pose proof (getTypeAnnotation_truthy _ _ _ Hta) as Hann.
  subst d fx. cbn. split; [assumption|]. split; [reflexivity|].
  unfold guarded. cbn [fo_type]. split.
  - rewrite <- !is_variant_eq, <- Hann,
      <- hasOneUnconstrainedTypeParam_spec, <- isDefaultExport_spec,
      <- (isFunctionExpressionWithName_spec node Hwf).
    unfold isUnfixableBecauseOfExport.
    rewrite <- !andb_true_iff, <- !orb_true_iff, !orb_assoc.
    match goal with
    | |- context [if ?g then _ else _] => destruct g
    end; split; congruence.
  - intros f.
    match goal with
    | |- context [if ?g then _ else _] => destruct g
    end; [discriminate|].
    now intros [= <-].
Qed.

Lemma C2_fix_absent_iff_guarded_witness :
  ownIdWellFormed inner_node /\
  visit (mkContext [mkConfiguration (Some (Literal arrow_function)) None None]
           "const Named = function Inner() { return null; };")
        (always true) inner_node
  = inr [mkDiagnostic inner_node
           (Some "Function component is not an arrow function")
           (Some arrow_function) None] /\
  selfNamedFunctionExpression inner_node.
Proof.
  assert (Hwf : ownIdWellFormed inner_node).
  { intros i [= <-]. exists "Inner". split; [reflexivity | discriminate]. }
  split; [exact Hwf|]. split; [reflexivity|].
  pose proof
    (C2_fix_absent_iff_guarded
       (mkContext [mkConfiguration (Some (Literal arrow_function)) None None]
          "const Named = function Inner() { return null; };")
       (always true) inner_node function_expression
       [mkDiagnostic inner_node
          (Some "Function component is not an arrow function")
          (Some arrow_function) None]
       (mkDiagnostic inner_node
          (Some "Function component is not an arrow function")
          (Some arrow_function) None)
       Hwf eq_refl (or_introl eq_refl)) as (_ & _ & [Hguard _] & _).
  destruct (Hguard eq_refl) as [[H _]|[[_ H]|[[H _]|H]]].
  - discriminate H.
  - destruct H as (tps & p & H & _). discriminate H.
  - discriminate H.
  - exact H.
Defined.

(* ------------------------------------------------------------------ *)
(** ** The replacement range *)
(* ------------------------------------------------------------------ *)

Arguments buildFunction : simpl never.

Lemma runFix_range (context : Context) (f : Fix) (e : TextEdit) :
  runFix context f = inr e -> edit_range e = fo_range (fix_options f).
Proof.
  unfold runFix.
  destruct (getName (fix_node f)) as [err|name]; cbn; [discriminate|].
  match goal with
  | |- context [buildFunction ?t ?p] =>
      destruct (buildFunction t p) as [err|text]; cbn; [discriminate|]
  end.
  now intros [= <-].
Qed.

(** C5. A fix that is offered replaces the node's own range when the
    node is a function declaration, and the range of the declarator's
    parent (the whole variable statement, keyword included) when the node
    is an arrow function or function expression bound to a variable; the
    edit the callback produces is at that range. *)
Theorem C5_replacement_range
    (context : Context) (components : Node -> bool)
    (node : Node) (functionType : Variant)
    (reported : list Diagnostic) (d : Diagnostic) (f : Fix) :
  validate context components node functionType = inr reported ->
  In d reported ->
  diag_fix d = Some f ->
  (node_type node = FunctionDeclaration ->
   fo_range (fix_options f) = node_range node) /\
  (forall p, boundToVariable node p ->
     exists g, parent_parent p = Some g /\
               fo_range (fix_options f) = anc_range g) /\
  (forall e, runFix context f = inr e ->
     edit_range e = fo_range (fix_options f)).
Proof.
  intros Hv Hin Hfix.
  destruct (validate_inv _ _ _ _ _ _ Hv Hin)
    as (named & range & fx & Hn & _ & _ & Hrange & Hf & _ & Hd).
  apply getFixer_inv in Hf. destruct Hf as (ta & _ & Hfx).
  subst d. cbn in Hfix. subst fx.
  destruct (guarded node _ ta); [discriminate|].
  injection Hfx as ->. cbn [fix_options fo_range].
  split; [|split].
  - intros Ht. apply NodeType_eqb_eq in Ht. rewrite Ht in Hrange.
    now rewrite andb_false_r in Hrange.
  - intros p (Hne & Hp & Hvd).
    assert (Ht : NodeType_eqb (node_type node) FunctionDeclaration = false).
    { destruct (NodeType_eqb (node_type node) FunctionDeclaration) eqn:E;
        [|reflexivity].
      apply NodeType_eqb_eq in E. contradiction. }
    unfold hasName in Hn. rewrite Ht, Hp in Hn. cbn in Hn.
    rewrite Hvd in Hn. cbn in Hn. injection Hn as <-.
    rewrite Ht in Hrange. cbn in Hrange.
    destruct Hrange as (q & g & Hq & Hg & ->).
    rewrite Hp in Hq. injection Hq as <-. now exists g.
  - intros e. apply runFix_range.
Qed.

Lemma C5_replacement_range_witness :
  exists d f,
    visit add_context (always true) add_node = inr [d] /\
    diag_fix d = Some f /\
    boundToVariable add_node add_declarator /\
    fo_range (fix_options f) = (0, 52).
Proof.
  set (f := mkFix add_node
              (mkFixerOptions (Some function_expression)
                 (NAMED_FUNCTION_TEMPLATES (Some function_expression))
                 (0, 52)) None).
  set (d := mkDiagnostic add_node
              (Some "Function component is not a function expression")
              (Some function_expression) (Some f)).
  assert (Hb : boundToVariable add_node add_declarator).
  { split; [discriminate|]. split; reflexivity. }
  exists d, f. split; [reflexivity|]. split; [reflexivity|].
  split; [exact Hb|].
  destruct (C5_replacement_range add_context (always true) add_node
              arrow_function [d] d f eq_refl (or_introl eq_refl) eq_refl)
    as (_ & Hvar & _).
  destruct (Hvar add_declarator Hb) as (g & Hg & Hr).
  injection Hg as <-. exact Hr.
Defined.

(* ------------------------------------------------------------------ *)
(** ** The guard and the default export *)
(* ------------------------------------------------------------------ *)

Lemma guarded_false_not_default_export (node : Node) (opts : FixerOptions)
    (typeAnnotation : option string) :
  guarded node opts typeAnnotation = false -> isDefaultExport node = false.
Proof.
  unfold guarded, isUnfixableBecauseOfExport. intros H.
  apply orb_false_iff in H. destruct H as [H _].
  apply orb_false_iff in H. now destruct H as [_ H].
Qed.

(* ------------------------------------------------------------------ *)
(** ** The synthesized text of a concrete fix *)
(* ------------------------------------------------------------------ *)

(** An expression body is wrapped in a block of three lines. *)
Lemma getBody_expression (node : Node) (source : string) :
  body_type (node_body node) <> "BlockStatement" ->
  getBody node source
  = "{" ++ LF ++ "  return "
      ++ slice source (fst (body_range (node_body node)))
           (snd (body_range (node_body node)))
      ++ LF ++ "}".
Proof.
  intros H. unfold getBody.
  destruct (String.eqb_spec (body_type (node_body node)) "BlockStatement");
    [contradiction|].
  reflexivity.
Qed.

(** C4, as the code behaves. For
    [const Add = (a: number, b: number): number => a + b;] with
    [namedComponents] set to [function-expression], the rule reports the
    arrow function and its fix replaces the whole statement, offsets 0 to
    52, by [var Add = function(a: number, b: number): number {],
    a line break, two spaces and [return a + b], a line break, and [}]. *)
Theorem C4_add_fix_text :
  exists d f,
    visit add_context (always true) add_node = inr [d] /\
    diag_messageId d = Some function_expression /\
    diag_fix d = Some f /\
    runFix add_context f
    = inr (mkTextEdit (0, 52)
             ("var Add = function(a: number, b: number): number {"
                ++ LF ++ "  return a + b" ++ LF ++ "}")).
Proof.
  eexists. eexists. split; [reflexivity|].
  split; [reflexivity|]. split; reflexivity.
Qed.

(** C4, as it was stated: the one-line text
    [var Add = function(a: number, b: number): number { return a + b }]
    is not the text of the fix. *)
Lemma C4_one_line_text_is_not_produced :
  exists d f e,
    visit add_context (always true) add_node = inr [d] /\
    diag_fix d = Some f /\
    runFix add_context f = inr e /\
    (edit_text e
     =? "var Add = function(a: number, b: number): number { return a + b }")
    = false.
Proof.
  eexists. eexists. eexists. split; [reflexivity|].
  split; [reflexivity|]. split; reflexivity.
Qed.

(* ------------------------------------------------------------------ *)
(** ** The message of a default export *)
(* ------------------------------------------------------------------ *)

(** What does hold of every report: the message id and the fix target
    are the head of the general list (named or unnamed by the node's
    namedness), also when the node was compared with the [defaultExport]
    lists. *)
Lemma report_uses_general_head
    (context : Context) (components : Node -> bool)
    (node : Node) (functionType : Variant)
    (reported : list Diagnostic) (d : Diagnostic) :
  validate context components node functionType = inr reported ->
  In d reported ->
  exists named,
    hasName node = inr named /\
    diag_messageId d = hd_error (reportedList context named) /\
    forall f, diag_fix d = Some f ->
      fo_type (fix_options f) = hd_error (reportedList context named).
Proof.
  intros Hv Hin.
  destruct (validate_inv _ _ _ _ _ _ Hv Hin)
    as (named & range & fx & Hn & _ & _ & _ & Hf & _ & Hd).
  apply getFixer_inv in Hf. destruct Hf as (ta & _ & Hfx).
  exists named. subst d. cbn. split; [assumption|]. split; [reflexivity|].
  intros f Hfix. subst fx.
  destruct (guarded node _ ta); [discriminate|]. now injection Hfix as <-.
Qed.

(** C1, evaluated where it fails. [export default function Hello() {...}]
    under [defaultExport.namedComponents = 'arrow-function'] and the
    general options left at their defaults: the list selected for the node
    is [arrow-function] alone, yet the diagnostic carries the message id
    [function-declaration], the head of the general named list, and the
    message that a function declaration is not a function declaration. *)
Theorem C1_default_export_message_from_general_list :
  isDefaultExport hello_node = true /\
  selectedList hello_context hello_node = inr [arrow_function] /\
  namedConfig hello_context = [function_declaration] /\
  visit hello_context (always true) hello_node
  = inr [mkDiagnostic hello_node
           (Some "Function component is not a function declaration")
           (Some function_declaration) None].
Proof. repeat split; reflexivity. Qed.

(* ------------------------------------------------------------------ *)
(** ** Searching a text for a placeholder *)
(* ------------------------------------------------------------------ *)

Lemma append_assoc (a b c : string) : (a ++ b) ++ c = a ++ b ++ c.
Proof. induction a as [|x a IH]; simpl; [reflexivity | now rewrite IH]. Qed.

Lemma append_empty_r (a : string) : a ++ "" = a.
Proof. induction a as [|x a IH]; simpl; [reflexivity | now rewrite IH]. Qed.

Lemma length_append (a b : string) :
  String.length (a ++ b) = String.length a + String.length b.
Proof. induction a as [|x a IH]; simpl; [reflexivity | now rewrite IH]. Qed.

Lemma prefix_cons (a b : ascii) (p s : string) :
  prefix (String a p) (String b s) = Ascii.eqb a b && prefix p s.
Proof.
  simpl. destruct (ascii_dec a b) as [->|Hne].
  - now rewrite Ascii.eqb_refl.
  - apply Ascii.eqb_neq in Hne. now rewrite Hne.
Qed.

Lemma prefix_append (p r : string) : prefix p (p ++ r) = true.
Proof.
  induction p as [|a p IH]; [now destruct r|].
  change (String a p ++ r) with (String a (p ++ r)).
  now rewrite prefix_cons, Ascii.eqb_refl.
Qed.

Lemma mismatch_prefix (pat x s : string) :
  mismatch pat x = true -> prefix pat (x ++ s) = false.
Proof.
  revert x. induction pat as [|a p IH]; intros [|b x] H; simpl in H;
    try discriminate.
  change (String b x ++ s) with (String b (x ++ s)).
  rewrite prefix_cons.
  destruct (Ascii.eqb a b); [|reflexivity]. simpl. now apply IH.
Qed.

Lemma index_cons (pat : string) (b : ascii) (s : string) :
  index 0 pat (String b s)
  = if prefix pat (String b s) then Some 0
    else option_map S (index 0 pat s).
Proof.
  cbn [index].
  destruct (prefix pat (String b s)); [reflexivity|].
  now destruct (index 0 pat s).
Qed.

Lemma index_literal (pat lit s : string) :
  mismatchEverywhere pat lit = true ->
  index 0 pat (lit ++ s)
  = option_map (Nat.add (String.length lit)) (index 0 pat s).
Proof.
  induction lit as [|b lit IH]; intros H.
  - simpl. now destruct (index 0 pat s).
  - cbn [mismatchEverywhere] in H. apply andb_true_iff in H.
    destruct H as [Hm Hrest].
    change (String b lit ++ s) with (String b (lit ++ s)).
    rewrite index_cons.
    change (String b (lit ++ s)) with (String b lit ++ s).
    rewrite (mismatch_prefix _ _ _ Hm), (IH Hrest).
    now destruct (index 0 pat s).
Qed.

(** A proper match cannot be completed by a character that the pattern
    does not contain. *)
Lemma prefix_not_completed (c : ascii) (s' : string) (y p : string) :
  prefix p y = false ->
  occursIn c p = false ->
  prefix p (y ++ String c s') = false.
Proof.
  revert p. induction y as [|b y IH]; intros [|a p] Hp Hc;
    try discriminate.
  - simpl append. rewrite prefix_cons. simpl in Hc.
    apply orb_false_iff in Hc. destruct Hc as [Hac _].
    now rewrite Hac.
  - change (String b y ++ String c s') with (String b (y ++ String c s')).
    rewrite prefix_cons in *. simpl in Hc.
    apply orb_false_iff in Hc. destruct Hc as [_ Hc].
    destruct (Ascii.eqb a b); [|reflexivity]. simpl in *. now apply IH.
Qed.

Lemma prefix_beyond_end (p y : string) :
  prefix p y = false -> prefix p (y ++ "") = false.
Proof. now rewrite append_empty_r. Qed.

Lemma index_part (pat x next : string) :
  mentions pat x = false ->
  cannotContinue pat next = true ->
  index 0 pat (x ++ next)
  = option_map (Nat.add (String.length x)) (index 0 pat next).
Proof.
  unfold mentions. intros Hx Hnext.
  induction x as [|b x IH].
  - simpl. now destruct (index 0 pat next).
  - rewrite index_cons in Hx.
    destruct (prefix pat (String b x)) eqn:Hp; [discriminate|].
    assert (Hx' : match index 0 pat x with Some _ => true | None => false end
                  = false) by now destruct (index 0 pat x).
    specialize (IH Hx').
    change (String b x ++ next) with (String b (x ++ next)).
    rewrite index_cons, IH.
    change (String b (x ++ next)) with (String b x ++ next).
    assert (Hq : prefix pat (String b x ++ next) = false).
    { destruct pat as [|a p]; [discriminate Hp|].
      destruct next as [|c s'].
      - now apply prefix_beyond_end.
      - simpl in Hnext. apply negb_true_iff in Hnext.
        change (String b x ++ String c s') with (String b (x ++ String c s')).
        rewrite prefix_cons in *.
        destruct (Ascii.eqb a b); [|reflexivity]. simpl in *.
        now apply prefix_not_completed. }
    rewrite Hq. now destruct (index 0 pat next).
Qed.

Lemma cat_append (segments : list string) (rest : string) :
  cat segments rest = cat segments "" ++ rest.
Proof.
  induction segments as [|x more IH]; simpl; [reflexivity|].
  now rewrite IH, append_assoc.
Qed.

Lemma index_cat (pat : string) (segments : list string) (rest : string) :
  skips pat segments rest ->
  index 0 pat (cat segments rest)
  = option_map (Nat.add (String.length (cat segments "")))
      (index 0 pat rest).
Proof.
  induction segments as [|x more IH]; intros H.
  - simpl. now destruct (index 0 pat rest).
  - destruct H as [Hx Hmore]. specialize (IH Hmore).
    cbn [cat]. rewrite length_append.
    destruct Hx as [Hlit | [Hfree Hnext]].
    + rewrite (index_literal _ _ _ Hlit), IH.
      destruct (index 0 pat rest); simpl; [f_equal; lia | reflexivity].
    + rewrite (index_part _ _ _ Hfree Hnext), IH.
      destruct (index 0 pat rest); simpl; [f_equal; lia | reflexivity].
Qed.

Lemma substring_prefix (a b : string) :
  substring 0 (String.length a) (a ++ b) = a.
Proof.
  induction a as [|x a IH]; simpl; [now destruct b | now rewrite IH].
Qed.

Lemma substring_all (a : string) : substring 0 (String.length a) a = a.
Proof. induction a as [|x a IH]; simpl; [reflexivity | now rewrite IH]. Qed.

Lemma substring_suffix (a b : string) :
  substring (String.length a) (String.length b) (a ++ b) = b.
Proof.
  induction a as [|x a IH]; simpl; [apply substring_all | exact IH].
Qed.

Lemma replace_at (pre pat post replacement : string) :
  index 0 pat (pre ++ pat ++ post) = Some (String.length pre) ->
  replace (pre ++ pat ++ post) pat replacement
  = pre ++ getSubstitution pat pre post replacement ++ post.
Proof.
  intros H. unfold replace. rewrite H. cbv zeta.
  rewrite substring_prefix.
  replace (String.length (pre ++ pat ++ post)
           - (String.length pre + String.length pat))
    with (String.length post)
    by (rewrite !length_append; lia).
  rewrite <- (length_append pre pat), <- (append_assoc pre pat post).
  now rewrite substring_suffix.
Qed.

Lemma replace_absent (s pat replacement : string) :
  mentions pat s = false -> replace s pat replacement = s.
Proof.
  unfold mentions, replace. now destruct (index 0 pat s).
Qed.

Lemma index_here (pat post : string) :
  pat <> "" -> index 0 pat (pat ++ post) = Some 0.
Proof.
  intros Hne. destruct pat as [|a p]; [contradiction|].
  change (String a p ++ post) with (String a (p ++ post)).
  rewrite index_cons.
  change (String a (p ++ post)) with (String a p ++ post).
  now rewrite prefix_append.
Qed.

Lemma replace_cat (segments : list string) (pat post replacement : string) :
  pat <> "" ->
  skips pat segments (pat ++ post) ->
  replace (cat segments (pat ++ post)) pat replacement
  = cat segments
      (getSubstitution pat (cat segments "") post replacement ++ post).
Proof.
  intros Hne Hskip.
  rewrite (cat_append segments (pat ++ post)).
  rewrite replace_at.
  - now rewrite <- cat_append.
  - rewrite <- cat_append, (index_cat _ _ _ Hskip), (index_here _ _ Hne).
    simpl. f_equal. lia.
Qed.

Lemma mentions_cat (segments : list string) (pat : string) :
  pat <> "" ->
  skips pat segments "" ->
  mentions pat (cat segments "") = false.
Proof.
  intros Hne Hskip. unfold mentions.
  rewrite (index_cat _ _ _ Hskip). destruct pat; [contradiction|].
  reflexivity.
Qed.

Lemma getSubstitution_patternFree (matched before after s : string) :
  patternFree s = true -> getSubstitution matched before after s = s.
Proof.
  induction s as [|c rest IH]; [reflexivity|].
  cbn [patternFree getSubstitution]. intros H.
  apply andb_true_iff in H. destruct H as [Hc Hrest].
  rewrite (IH Hrest).
  destruct (Ascii.eqb c "$") eqn:Ec; [|reflexivity].
  destruct rest as [|d rest']; [reflexivity|].
  apply negb_true_iff in Hc.
  apply orb_false_iff in Hc. destruct Hc as [Hc H4].
  apply orb_false_iff in Hc. destruct Hc as [Hc H3].
  apply orb_false_iff in Hc. destruct Hc as [H1 H2].
  now rewrite H1, H2, H3, H4.
Qed.

Lemma avoids_mentions (pats : list string) (fragment : option string)
    (pat : string) :
  avoids pats fragment = true -> In pat pats ->
  mentions pat (or_empty fragment) = false.
Proof.
  unfold avoids. intros H Hin. apply andb_true_iff in H.
  destruct H as [H _]. rewrite forallb_forall in H.
  apply negb_true_iff. now apply H.
Qed.

Lemma avoids_patternFree (pats : list string) (fragment : option string) :
  avoids pats fragment = true -> patternFree (or_empty fragment) = true.
Proof.
  unfold avoids. intros H. apply andb_true_iff in H. now destruct H.
Qed.

Lemma replace_fill (segments : list string)
    (pat post replacement acc : string) :
  acc = cat segments (pat ++ post) ->
  pat <> "" ->
  skips pat segments (pat ++ post) ->
  patternFree replacement = true ->
  replace acc pat replacement = cat segments (replacement ++ post).
Proof.
  intros -> Hne Hskip Hfree.
  rewrite (replace_cat _ _ _ _ Hne Hskip).
  now rewrite getSubstitution_patternFree.
Qed.

Lemma replace_nowhere (segments : list string)
    (pat replacement acc : string) :
  acc = cat segments "" ->
  pat <> "" ->
  skips pat segments "" ->
  replace acc pat replacement = acc.
Proof.
  intros -> Hne Hskip. apply replace_absent. now apply mentions_cat.
Qed.

Lemma buildFunction_unfold (template : string) (parts : Parts) :
  buildFunction (Some template) parts
  = inr
      (replace
         (replace
            (replace
               (replace
                  (replace
                     (replace template "{typeAnnotation}"
                        (or_empty (part_typeAnnotation parts)))
                     "{typeParams}" (or_empty (part_typeParams parts)))
                  "{params}" (or_empty (part_params parts)))
               "{returnType}" (or_empty (part_returnType parts)))
            "{body}" (or_empty (part_body parts)))
         "{name}" (or_empty (part_name parts))).
Proof. reflexivity. Qed.

Ltac solve_skips :=
  cbn [skips]; repeat split;
  first
    [ left; reflexivity
    | right; split;
      [ first [ assumption
              | eapply avoids_mentions; [eassumption | cbn; tauto] ]
      | reflexivity ] ].

Ltac fill_side :=
  first
    [ reflexivity
    | discriminate
    | solve_skips
    | eapply avoids_patternFree; eassumption ].

Ltac fill_hole segments post :=
  match goal with
  | |- context [replace ?acc ?pat ?r] =>
      lazymatch acc with
      | context [replace _ _ _] => fail
      | _ => rewrite (replace_fill segments pat post r acc) by fill_side
      end
  end.

Section Templates.

Variable parts : Parts.

Local Notation "'ta'" := (or_empty (part_typeAnnotation parts)) (only parsing).
Local Notation "'tp'" := (or_empty (part_typeParams parts)) (only parsing).
Local Notation "'ps'" := (or_empty (part_params parts)) (only parsing).
Local Notation "'rt'" := (or_empty (part_returnType parts)) (only parsing).
Local Notation "'bd'" := (or_empty (part_body parts)) (only parsing).
Local Notation "'nm'" := (or_empty (part_name parts)) (only parsing).

Hypothesis typeParams_avoids :
  avoids ["{params}"; "{returnType}"; "{body}"] (part_typeParams parts) = true.
Hypothesis params_avoids :
  avoids ["{returnType}"; "{body}"] (part_params parts) = true.
Hypothesis returnType_avoids :
  avoids ["{body}"] (part_returnType parts) = true.
Hypothesis body_avoids : avoids [] (part_body parts) = true.

Lemma buildFunction_declaration :
  avoids [] (part_name parts) = true ->
  buildFunction (NAMED_FUNCTION_TEMPLATES (Some function_declaration)) parts
  = inr (namedText function_declaration parts).
Proof.
  intros Hn. unfold namedText.
  cbn [NAMED_FUNCTION_TEMPLATES]. rewrite buildFunction_unfold.
  rewrite (replace_absent _ "{typeAnnotation}" ta) by reflexivity.
  fill_hole ["function {name}"] "({params}){returnType} {body}".
  fill_hole ["function {name}"; tp; "("] "){returnType} {body}".
  fill_hole ["function {name}"; tp; "("; ps; ")"] " {body}".
  fill_hole ["function {name}"; tp; "("; ps; ")"; rt; " "] "".
  rewrite append_empty_r.
  fill_hole ["function "] (tp ++ "(" ++ ps ++ ")" ++ rt ++ " " ++ bd).
  reflexivity.
Qed.

Lemma buildFunction_named_arrow :
  avoids ["{typeParams}"; "{params}"; "{returnType}"; "{body}"]
    (part_typeAnnotation parts) = true ->
  avoids [] (part_name parts) = true ->
  buildFunction (NAMED_FUNCTION_TEMPLATES (Some arrow_function)) parts
  = inr (namedText arrow_function parts).
Proof.
  intros Ha Hn. unfold namedText.
  cbn [NAMED_FUNCTION_TEMPLATES]. rewrite buildFunction_unfold.
  fill_hole ["var {name}"] " = {typeParams}({params}){returnType} => {body}".
  fill_hole ["var {name}"; ta; " = "] "({params}){returnType} => {body}".
  fill_hole ["var {name}"; ta; " = "; tp; "("] "){returnType} => {body}".
  fill_hole ["var {name}"; ta; " = "; tp; "("; ps; ")"] " => {body}".
  fill_hole ["var {name}"; ta; " = "; tp; "("; ps; ")"; rt; " => "] "".
  rewrite append_empty_r.
  fill_hole ["var "]
    (ta ++ " = " ++ tp ++ "(" ++ ps ++ ")" ++ rt ++ " => " ++ bd).
  reflexivity.
Qed.

Lemma buildFunction_named_expression :
  avoids ["{typeParams}"; "{params}"; "{returnType}"; "{body}"]
    (part_typeAnnotation parts) = true ->
  avoids [] (part_name parts) = true ->
  buildFunction (NAMED_FUNCTION_TEMPLATES (Some function_expression)) parts
  = inr (namedText function_expression parts).
Proof.
  intros Ha Hn. unfold namedText.
  cbn [NAMED_FUNCTION_TEMPLATES]. rewrite buildFunction_unfold.
  fill_hole ["var {name}"]
    " = function{typeParams}({params}){returnType} {body}".
  fill_hole ["var {name}"; ta; " = function"] "({params}){returnType} {body}".
  fill_hole ["var {name}"; ta; " = function"; tp; "("] "){returnType} {body}".
  fill_hole ["var {name}"; ta; " = function"; tp; "("; ps; ")"] " {body}".
  fill_hole ["var {name}"; ta; " = function"; tp; "("; ps; ")"; rt; " "] "".
  rewrite append_empty_r.
  fill_hole ["var "]
    (ta ++ " = function" ++ tp ++ "(" ++ ps ++ ")" ++ rt ++ " " ++ bd).
  reflexivity.
Qed.

End Templates.

Section UnnamedTemplates.

Variable parts : Parts.

Local Notation "'tp'" := (or_empty (part_typeParams parts)) (only parsing).
Local Notation "'ps'" := (or_empty (part_params parts)) (only parsing).
Local Notation "'rt'" := (or_empty (part_returnType parts)) (only parsing).
Local Notation "'bd'" := (or_empty (part_body parts)) (only parsing).

Hypothesis typeParams_avoids :
  avoids ["{params}"; "{returnType}"; "{body}"; "{name}"]
    (part_typeParams parts) = true.
Hypothesis params_avoids :
  avoids ["{returnType}"; "{body}"; "{name}"] (part_params parts) = true.
Hypothesis returnType_avoids :
  avoids ["{body}"; "{name}"] (part_returnType parts) = true.
Hypothesis body_avoids : avoids ["{name}"] (part_body parts) = true.

Lemma buildFunction_unnamed_expression :
  buildFunction (UNNAMED_FUNCTION_TEMPLATES (Some function_expression)) parts
  = inr ("function" ++ tp ++ "(" ++ ps ++ ")" ++ rt ++ " " ++ bd).
Proof.
  cbn [UNNAMED_FUNCTION_TEMPLATES]. rewrite buildFunction_unfold.
  rewrite (replace_absent _ "{typeAnnotation}") by reflexivity.
  fill_hole ["function"] "({params}){returnType} {body}".
  fill_hole ["function"; tp; "("] "){returnType} {body}".
  fill_hole ["function"; tp; "("; ps; ")"] " {body}".
  fill_hole ["function"; tp; "("; ps; ")"; rt; " "] "".
  rewrite (replace_nowhere ["function"; tp; "("; ps; ")"; rt; " "; bd])
    by first [reflexivity | discriminate | solve_skips].
  cbn [cat]. now rewrite append_empty_r.
Qed.

Lemma buildFunction_unnamed_arrow :
  buildFunction (UNNAMED_FUNCTION_TEMPLATES (Some arrow_function)) parts
  = inr (tp ++ "(" ++ ps ++ ")" ++ rt ++ " => " ++ bd).
Proof.
  cbn [UNNAMED_FUNCTION_TEMPLATES]. rewrite buildFunction_unfold.
  rewrite (replace_absent _ "{typeAnnotation}") by reflexivity.
  fill_hole (@nil string) "({params}){returnType} => {body}".
  fill_hole [tp; "("] "){returnType} => {body}".
  fill_hole [tp; "("; ps; ")"] " => {body}".
  fill_hole [tp; "("; ps; ")"; rt; " => "] "".
  rewrite (replace_nowhere [tp; "("; ps; ")"; rt; " => "; bd])
    by first [reflexivity | discriminate | solve_skips].
  cbn [cat]. now rewrite append_empty_r.
Qed.

End UnnamedTemplates.

Section UnnamedTemplatesWithName.

Variable parts : Parts.
Variables before after : string.

Local Notation "'tp'" := (or_empty (part_typeParams parts)) (only parsing).
Local Notation "'ps'" := (or_empty (part_params parts)) (only parsing).
Local Notation "'rt'" := (or_empty (part_returnType parts)) (only parsing).

Hypothesis typeParams_avoids :
  avoids ["{params}"; "{returnType}"; "{body}"; "{name}"]
    (part_typeParams parts) = true.
Hypothesis params_avoids :
  avoids ["{returnType}"; "{body}"; "{name}"] (part_params parts) = true.
Hypothesis returnType_avoids :
  avoids ["{body}"; "{name}"] (part_returnType parts) = true.
Hypothesis body_text : part_body parts = Some (before ++ "{name}" ++ after).
Hypothesis body_patternFree :
  patternFree (before ++ "{name}" ++ after) = true.
Hypothesis before_free : mentions "{name}" before = false.
Hypothesis no_name : part_name parts = None.

Lemma buildFunction_unnamed_expression_drops_name :
  buildFunction (UNNAMED_FUNCTION_TEMPLATES (Some function_expression)) parts
  = inr ("function" ++ tp ++ "(" ++ ps ++ ")" ++ rt ++ " "
           ++ before ++ after).
Proof.
  cbn [UNNAMED_FUNCTION_TEMPLATES]. rewrite buildFunction_unfold.
  rewrite body_text, no_name. cbn [or_empty].
  rewrite (replace_absent _ "{typeAnnotation}") by reflexivity.
  fill_hole ["function"] "({params}){returnType} {body}".
  fill_hole ["function"; tp; "("] "){returnType} {body}".
  fill_hole ["function"; tp; "("; ps; ")"] " {body}".
  rewrite (replace_fill ["function"; tp; "("; ps; ")"; rt; " "] "{body}" ""
             (before ++ "{name}" ++ after))
    by first [reflexivity | discriminate | solve_skips | assumption].
  rewrite append_empty_r.
  rewrite (replace_fill ["function"; tp; "("; ps; ")"; rt; " "; before]
             "{name}" after "")
    by first [reflexivity | discriminate | solve_skips].
  reflexivity.
Qed.

Lemma buildFunction_unnamed_arrow_drops_name :
  buildFunction (UNNAMED_FUNCTION_TEMPLATES (Some arrow_function)) parts
  = inr (tp ++ "(" ++ ps ++ ")" ++ rt ++ " => " ++ before ++ after).
Proof.
  cbn [UNNAMED_FUNCTION_TEMPLATES]. rewrite buildFunction_unfold.
  rewrite body_text, no_name. cbn [or_empty].
  rewrite (replace_absent _ "{typeAnnotation}") by reflexivity.
  fill_hole (@nil string) "({params}){returnType} => {body}".
  fill_hole [tp; "("] "){returnType} => {body}".
  fill_hole [tp; "("; ps; ")"] " => {body}".
  rewrite (replace_fill [tp; "("; ps; ")"; rt; " => "] "{body}" ""
             (before ++ "{name}" ++ after))
    by first [reflexivity | discriminate | solve_skips | assumption].
  rewrite append_empty_r.
  rewrite (replace_fill [tp; "("; ps; ")"; rt; " => "; before]
             "{name}" after "")
    by first [reflexivity | discriminate | solve_skips].
  reflexivity.
Qed.

End UnnamedTemplatesWithName.

Lemma JsError_unique (e : JsError) : e = TypeError.
Proof. now destruct e. Qed.

Lemma getFixer_total (context : Context) (node : Node) (opts : FixerOptions)
    (typeAnnotation : option string) :
  getTypeAnnotation node (sourceText context) = inr typeAnnotation ->
  getFixer context node opts
  = inr (if guarded node opts typeAnnotation then None
         else Some (mkFix node opts typeAnnotation)).
Proof.
  intros H. unfold getFixer, guarded. rewrite H. cbn.
  destruct (is_variant (fo_type opts) function_declaration
            && truthy typeAnnotation); [reflexivity|].
  destruct (is_variant (fo_type opts) arrow_function
            && hasOneUnconstrainedTypeParam node); [reflexivity|].
  destruct (isUnfixableBecauseOfExport node); [reflexivity|].
  now destruct (isFunctionExpressionWithName node).
Qed.

Lemma NodeType_eqb_neq (a b : NodeType) : NodeType_eqb a b = false <-> a <> b.
Proof.
  rewrite <- NodeType_eqb_eq. destruct (NodeType_eqb a b); split; congruence.
Qed.

Lemma validate_throws_characterised
    (context : Context) (components : Node -> bool)
    (node : Node) (functionType : Variant) :
  validate context components node functionType = inl TypeError <->
  validateThrows context components node functionType.
Proof.
  unfold validateThrows, validate.
  destruct (components node); cbn [negb];
    [|split; [discriminate | intros [H _]; discriminate]].
  destruct (NodeType_eqb (node_type node) FunctionDeclaration) eqn:Ht.
  - (* a function declaration *)
    assert (Hfd := proj1 (NodeType_eqb_eq _ _) Ht).
    split; [|intros (_ & H & _); contradiction].
    intros H. exfalso. revert H.
    destruct (match node_parent node with
              | Some p => parent_type p =? "Property"
              | None => false
              end); [discriminate|].
    assert (Hta : forall source, getTypeAnnotation node source = inr None).
    { intros source. unfold getTypeAnnotation, hasName. now rewrite Ht. }
    assert (Hcore : forall a b,
              applyConfig context functionType node a b <> inl TypeError).
    { intros a b. unfold applyConfig, report, hasName. rewrite Ht. cbn.
      destruct (includes a functionType); cbn; [discriminate|].
      rewrite (getFixer_total _ _ _ _ (Hta _)). discriminate. }
    destruct (isDefaultExport node); apply Hcore.
  - apply NodeType_eqb_neq in Ht.
    assert (Hd : isDefaultExport node = false).
    { unfold isDefaultExport.
      destruct (NodeType_eqb (node_type node) FunctionDeclaration) eqn:E;
        [apply NodeType_eqb_eq in E; contradiction | reflexivity]. }
    rewrite Hd.
    assert (Ht' := proj2 (NodeType_eqb_neq _ _) Ht).
    destruct (node_parent node) as [p|] eqn:Hp.
    + destruct (String.eqb_spec (parent_type p) "Property") as [Hprop|Hprop].
      * split; [discriminate|].
        intros (_ & _ & Hv & _). rewrite Hprop in Hv. discriminate.
      * unfold applyConfig, report, hasName. rewrite Ht', Hp. cbn.
        destruct (String.eqb_spec (parent_type p) "VariableDeclarator")
          as [Hv|Hv]; cbn.
        -- destruct (includes (namedConfig context) functionType); cbn.
           ++ split; [discriminate|]. intros (_ & _ & _ & H & _).
              discriminate.
           ++ assert (Hta : forall typeAnnotation i,
                  parent_id p = Some i ->
                  typeAnnotation
                  = getNodeText (id_typeAnnotation i) (sourceText context) ->
                  getTypeAnnotation node (sourceText context)
                  = inr typeAnnotation).
              { intros ta i Hi ->. unfold getTypeAnnotation, hasName.
                rewrite Ht', Hp. cbn. rewrite Hv. cbn. now rewrite Hi. }
              destruct (parent_parent p) as [g|]; cbn.
              ** destruct (parent_id p) as [i|] eqn:Hi.
                 --- rewrite (getFixer_total _ _ _ _ (Hta _ i eq_refl eq_refl)).
                     cbn. split; [discriminate|].
                     intros (_ & _ & _ & _ & [H|H]); discriminate.
                 --- unfold getFixer, getTypeAnnotation, hasName.
                     rewrite Ht', Hp. cbn. rewrite Hv. cbn. rewrite Hi. cbn.
                     split; [|reflexivity]. intros _.
                     repeat split; try assumption. now right.
              ** split; [|reflexivity]. intros _.
                 repeat split; try assumption. now left.
        -- assert (Hta : getTypeAnnotation node (sourceText context)
                         = inr None).
           { unfold getTypeAnnotation, hasName. rewrite Ht', Hp. cbn.
             destruct (String.eqb_spec (parent_type p) "VariableDeclarator");
               [contradiction | reflexivity]. }
           destruct (includes (unnamedConfig context) functionType); cbn.
           ++ split; [discriminate|]. intros (_ & _ & H & _). contradiction.
           ++ rewrite (getFixer_total _ _ _ _ Hta). cbn.
              split; [discriminate|]. intros (_ & _ & H & _). contradiction.
    + unfold applyConfig, hasName. rewrite Ht', Hp. cbn.
      split; [|reflexivity]. intros _. now repeat split.
Qed.

(** X1. For a detected component that is not the value of an
    object-literal property, a [validate] that returns reports nothing
    exactly when the style it is visited with is in the list selected for
    the node; otherwise it reports one diagnostic, on the node itself. *)
Theorem reported_iff_not_selected
    (context : Context) (components : Node -> bool)
    (node : Node) (functionType : Variant)
    (reported : list Diagnostic) (selected : list Variant) :
  validate context components node functionType = inr reported ->
  components node = true ->
  inProperty node = false ->
  selectedList context node = inr selected ->
  (reported = [] <-> In functionType selected) /\
  (forall d, In d reported -> reported = [d] /\ diag_node d = node).
Proof.
  intros Hv Hc Hprop Hsel. split.
  - split.
    + intros ->. revert Hv Hsel.
      unfold validate, selectedList, appliedPair. rewrite Hc.
      unfold inProperty in Hprop. rewrite Hprop. cbn [negb].
      unfold applyConfig, report.
      destruct (hasName node) as [e|named]; cbn; [discriminate|].
      destruct (isDefaultExport node), named; cbn;
        intros Hv [= <-]; apply includes_In;
        match goal with
        | |- includes ?l ?v = true =>
            destruct (includes l v) eqn:Hi; [reflexivity|]
        end; cbn in Hv; exfalso; revert Hv;
        repeat match goal with
               | |- context [NodeType_eqb ?a ?b] =>
                   destruct (NodeType_eqb a b); cbn
               | |- context [node_parent node] =>
                   destruct (node_parent node) as [p|]; cbn;
                   [|discriminate]
               | |- context [parent_parent ?p] =>
                   destruct (parent_parent p) as [g|]; cbn; [|discriminate]
               end;
        match goal with
        | |- context [getFixer ?c ?n ?o] =>
            destruct (getFixer c n o); cbn; discriminate
        end.
    + intros Hin. apply includes_In in Hin.
      rewrite (validate_member _ _ _ _ _ Hsel Hin) in Hv. congruence.
  - intros d Hin.
    destruct (validate_inv _ _ _ _ _ _ Hv Hin)
      as (named & range & fx & _ & _ & _ & _ & _ & Hr & Hd).
    split; [assumption | now subst d].
Qed.

Lemma hd_error_concat_none (value : option OptionValue) (fallback : Variant) :
  hd_error (concat_onto_empty (or_literal value fallback)) = None <->
  value = Some (Array []).
Proof.
  destruct value as [[v|[|v l]]|]; cbn; split; congruence.
Qed.

(** X5. A diagnostic has no message id exactly when the general option
    for the node's namedness is the empty array, and it has no message
    text exactly then; a fix offered with such a diagnostic throws when
    it is called. *)
Theorem no_message_iff_empty_array
    (context : Context) (components : Node -> bool)
    (node : Node) (functionType : Variant)
    (reported : list Diagnostic) (d : Diagnostic) :
  validate context components node functionType = inr reported ->
  In d reported ->
  exists named,
    hasName node = inr named /\
    (diag_messageId d = None <->
     generalOption context named = Some (Array [])) /\
    (diag_message d = None <-> diag_messageId d = None) /\
    (forall f, diag_fix d = Some f ->
       diag_messageId d = None -> runFix context f = inl TypeError).
Proof.
  intros Hv Hin.
  destruct (validate_inv _ _ _ _ _ _ Hv Hin)
    as (named & range & fx & Hn & _ & _ & _ & Hf & _ & Hd).
  apply getFixer_inv in Hf. destruct Hf as (ta & _ & Hfx).
  exists named. split; [assumption|]. subst d. cbn.
  split; [|split].
  - unfold reportedList, generalOption, namedConfig, unnamedConfig.
    destruct named; apply hd_error_concat_none.
  - destruct (hd_error (reportedList context named)) as [[]|]; cbn;
      split; congruence.
  - intros f Hfix Hnone. subst fx.
    destruct (guarded node _ ta); [discriminate|].
    injection Hfix as <-. unfold runFix. cbn.
    rewrite Hnone.
    destruct (getName node) as [e|name]; cbn;
      [now rewrite (JsError_unique e)|].
    unfold reportedTemplate. now destruct named.
Qed.

(** X4. Off the default-export path the reported style is never the
    style the node was visited with, and an offered fix never targets the
    style the node already has. *)
Theorem reported_style_is_not_own
    (context : Context) (components : Node -> bool)
    (node : Node) (functionType : Variant)
    (reported : list Diagnostic) (d : Diagnostic) :
  validate context components node functionType = inr reported ->
  In d reported ->
  (isDefaultExport node = false -> diag_messageId d <> Some functionType) /\
  (forall f, diag_fix d = Some f ->
     fo_type (fix_options f) <> Some functionType).
Proof.
  intros Hv Hin.
  destruct (validate_inv _ _ _ _ _ _ Hv Hin)
    as (named & range & fx & Hn & _ & Hi & _ & Hf & _ & Hd).
  apply getFixer_inv in Hf. destruct Hf as (ta & _ & Hfx).
  assert (Hgen : isDefaultExport node = false ->
                 hd_error (reportedList context named) <> Some functionType).
  { intros Hde Hhd. apply includes_hd in Hhd.
    unfold appliedPair in Hi. rewrite Hde in Hi.
    unfold reportedList in Hhd.
    destruct named; cbn [fst snd] in Hi; congruence. }
  subst d. cbn. split; [exact Hgen|].
  intros f Hfix. subst fx.
  destruct (guarded node _ ta) eqn:Hg; [discriminate|].
  injection Hfix as <-. cbn.
  apply Hgen. now apply guarded_false_not_default_export in Hg.
Qed.

Lemma buildFunction_some (template : string) (parts : Parts) :
  exists text, buildFunction (Some template) parts = inr text.
Proof. rewrite buildFunction_unfold. now eexists. Qed.

Lemma offered_fix_throws_characterised
    (context : Context) (components : Node -> bool)
    (node : Node) (functionType : Variant)
    (reported : list Diagnostic) (d : Diagnostic) (f : Fix) :
  validate context components node functionType = inr reported ->
  In d reported ->
  diag_fix d = Some f ->
  (runFix context f = inl TypeError <->
     diag_messageId d = None \/
     (hasName node = inr false /\
      diag_messageId d = Some function_declaration) \/
     (node_type node = FunctionDeclaration /\ node_id node = None)).
Proof.
  intros Hv Hin Hfix.
  destruct (validate_inv _ _ _ _ _ _ Hv Hin)
    as (named & range & fx & Hn & _ & _ & _ & Hf & _ & Hd).
  apply getFixer_inv in Hf. destruct Hf as (ta & Hta & Hfx).
  subst d. cbn in *. subst fx.
  destruct (guarded node _ ta); [discriminate|].
  injection Hfx as ->. unfold runFix. cbn.
  (* the name is read without an exception unless a declaration has no id *)
  assert (Hname : (exists name, getName node = inr name) \/
                  (getName node = inl TypeError /\
                   node_type node = FunctionDeclaration /\
                   node_id node = None)).
  { revert Hn Hta. unfold getName, getTypeAnnotation, hasName.
    destruct (node_type node) eqn:Ht; cbn.
    - destruct (node_id node); cbn; [left; now eexists | right; now auto].
    - destruct (node_parent node) as [p|]; cbn; [|discriminate].
      destruct (parent_type p =? "VariableDeclarator"); cbn;
        [|left; now eexists].
      destruct (parent_id p); cbn; [left; now eexists | discriminate].
    - destruct (node_parent node) as [p|]; cbn; [|discriminate].
      destruct (parent_type p =? "VariableDeclarator"); cbn;
        [|left; now eexists].
      destruct (parent_id p); cbn; [left; now eexists | discriminate]. }
  set (target := hd_error (reportedList context named)).
  destruct Hname as [[name Hname] | (Hname & Hfd & Hid)].
  - rewrite Hname. cbn.
    assert (Hdecl : ~ (node_type node = FunctionDeclaration /\
                       node_id node = None)).
    { intros [Hfd Hid]. revert Hname. unfold getName.
      rewrite Hfd, Hid. discriminate. }
    destruct (reportedTemplate named target) as [template|] eqn:Htpl.
    + destruct (buildFunction_some template
                  (mkParts ta
                     (getNodeText
                        (option_map tps_range (node_typeParameters node))
                        (sourceText context))
                     (getParams node (sourceText context))
                     (getNodeText (node_returnType node) (sourceText context))
                     (Some (getBody node (sourceText context))) name))
        as [text Htext].
      rewrite Htext. cbn. split; [discriminate|].
      intros [Hnone | [[Hun Hdecl'] | H]]; [| |contradiction].
      * rewrite Hnone in Htpl. unfold reportedTemplate in Htpl.
        now destruct named.
      * rewrite Hn in Hun. injection Hun as ->.
        rewrite Hdecl' in Htpl. discriminate.
    + split; [|reflexivity]. intros _.
      unfold reportedTemplate in Htpl.
      destruct named, target as [[]|]; try discriminate; auto.
  - rewrite Hname. cbn. split; [|reflexivity]. intros _. now auto.
Qed.

(** X6. The fix callback offered with a diagnostic throws exactly when
    there is no target style (an empty array option), the node is unnamed
    and the target is [function-declaration] (for which there is no
    unnamed template), or the node is a function declaration without an
    identifier. *)
Theorem offered_fix_throws_iff
    (context : Context) (components : Node -> bool)
    (node : Node) (functionType : Variant)
    (reported : list Diagnostic) (d : Diagnostic) (f : Fix) :
  validate context components node functionType = inr reported ->
  In d reported ->
  diag_fix d = Some f ->
  (runFix context f = inl TypeError <->
     diag_messageId d = None \/
     (hasName node = inr false /\
      diag_messageId d = Some function_declaration) \/
     (node_type node = FunctionDeclaration /\ node_id node = None)).
Proof. apply offered_fix_throws_characterised. Qed.

(* ------------------------------------------------------------------ *)
(** ** The second analysis of a rewritten function *)
(* ------------------------------------------------------------------ *)












(** With both general lists headed by a style that has a template, and
    declarations that have their identifier, whatever [validate] reports
    is accepted by the reporter. *)
Lemma reports_accepted
    (context : Context) (components : Node -> bool)
    (node : Node) (functionType : Variant) (reported : list Diagnostic) :
  generalTemplatesExist context ->
  declarationHasId node ->
  validate context components node functionType = inr reported ->
  reporterAccepts context reported.
Proof.
  intros [Hnt Hut] Hid Hv d Hin.
  destruct (report_uses_general_head _ _ _ _ _ _ Hv Hin)
    as (named & Hn & Hmid & _).
  assert (Hhead : hd_error (reportedList context named) <> None).
  { intros E. unfold reportedList in E.
    destruct named; rewrite E in *; [now apply Hnt | now apply Hut]. }
  split.
  - destruct (validate_inv _ _ _ _ _ _ Hv Hin)
      as (named0 & range & fx & Hn0 & _ & _ & _ & _ & _ & Hd).
    rewrite Hn in Hn0. injection Hn0 as <-. subst d. cbn.
    destruct (hd_error (reportedList context named)) as [[]|];
      [discriminate.. | contradiction].
  - intros f Hfix.
    destruct (runFix context f) as [e|edit] eqn:Hrun; [|now exists edit].
    exfalso. rewrite (JsError_unique e) in Hrun.
    apply (offered_fix_throws_characterised _ _ _ _ _ _ _ Hv Hin Hfix) in Hrun.
    destruct Hrun as [Hnone | [[Hun Hdecl] | [Hfd Hnoid]]].
    + rewrite Hmid in Hnone. contradiction.
    + rewrite Hn in Hun. injection Hun as ->.
      rewrite Hmid in Hdecl. unfold reportedList in Hdecl.
      apply Hut. now rewrite Hdecl.
    + destruct (validate_inv _ _ _ _ _ _ Hv Hin)
        as (named0 & range & fx & _ & _ & _ & _ & Hf & _ & Hd).
      apply getFixer_inv in Hf. destruct Hf as (ta & _ & Hfx).
      subst d. cbn in Hfix. subst fx.
      destruct (guarded node _ ta) eqn:Hg; [discriminate|].
      apply guarded_false_not_default_export in Hg.
      now apply (Hid Hfd Hg).
Qed.

(** X2. Let both general lists be headed by a style that has a template
    (neither option is an empty array, and [unnamedComponents] does not
    start with [function-declaration]), and let a function declaration
    have its identifier. Then [validate] throws exactly when the node is a
    detected component that is not a function declaration and either has
    no parent, or is the initializer of a declarator, is visited with a
    style outside [namedComponents], and the declarator lacks its parent
    or its [id]; and when [validate] returns, the reporter accepts what
    it was handed: every report has a message and its fix callback
    returns. *)
Theorem validate_throws_iff
    (context : Context) (components : Node -> bool)
    (node : Node) (functionType : Variant) :
  generalTemplatesExist context ->
  declarationHasId node ->
  (validate context components node functionType = inl TypeError <->
   validateThrows context components node functionType) /\
  (forall reported,
     validate context components node functionType = inr reported ->
     reporterAccepts context reported).
Proof.
  intros Ht Hid. split.
  - apply validate_throws_characterised.
  - intros reported. now apply reports_accepted.
Qed.

(** X3. Under the same conditions on the options and on declarations,
    [validate] returns normally on every function declaration and on
    every node whose parent is present and, when it is a declarator, has
    an [id] and a parent of its own, and the reporter accepts what it was
    handed: on a tree as a parser builds it the visitor never throws. *)
Theorem validate_returns_on_well_formed
    (context : Context) (components : Node -> bool)
    (node : Node) (functionType : Variant) :
  generalTemplatesExist context ->
  declarationHasId node ->
  node_type node = FunctionDeclaration \/ wellFormed node ->
  exists reported,
    validate context components node functionType = inr reported /\
    reporterAccepts context reported.
Proof.
  intros Ht Hid Hwf.
  destruct (validate context components node functionType) as [e|reported]
    eqn:Hv.
  - exfalso. rewrite (JsError_unique e) in Hv.
    apply validate_throws_characterised in Hv. destruct Hv as (_ & Hne & Hp).
    destruct Hwf as [Hfd | (p & Hpar & Hdecl)]; [contradiction|].
    rewrite Hpar in Hp. destruct Hp as (Hv & _ & Hmissing).
    destruct (Hdecl Hv) as [Hi Hpp]. now destruct Hmissing.
  - exists reported. split; [reflexivity|].
    now apply (reports_accepted context components node functionType).
Qed.

Lemma validate_throws_iff_witness :
  generalTemplatesExist add_context /\
  declarationHasId add_node /\
  (validate add_context (always true) add_node arrow_function
   = inl TypeError <->
   validateThrows add_context (always true) add_node arrow_function) /\
  reporterAccepts add_context
    [mkDiagnostic add_node
       (Some "Function component is not a function expression")
       (Some function_expression) (Some add_fix)].
Proof.
  assert (add_context_templates : generalTemplatesExist add_context).
  { split; discriminate. }
  assert (add_node_declarationHasId : declarationHasId add_node).
  { intros H. discriminate. }
  split; [exact add_context_templates|].
  split; [exact add_node_declarationHasId|].
  destruct (validate_throws_iff add_context (always true) add_node
              arrow_function add_context_templates
              add_node_declarationHasId) as [Hiff Hacc].
  split; [exact Hiff|]. now apply Hacc.
Defined.

Lemma validate_returns_on_well_formed_witness :
  generalTemplatesExist add_context /\
  declarationHasId add_node /\
  wellFormed add_node /\
  exists reported,
    validate add_context (always true) add_node arrow_function
    = inr reported /\
    reporterAccepts add_context reported.
Proof.
  assert (add_context_templates : generalTemplatesExist add_context).
  { split; discriminate. }
  assert (add_node_declarationHasId : declarationHasId add_node).
  { intros H. discriminate. }
  assert (add_node_wellFormed : wellFormed add_node).
  { exists add_declarator. split; [reflexivity|].
    intros _. split; discriminate. }
  split; [exact add_context_templates|].
  split; [exact add_node_declarationHasId|].
  split; [exact add_node_wellFormed|].
  exact (validate_returns_on_well_formed add_context (always true) add_node
           arrow_function add_context_templates add_node_declarationHasId
           (or_intror add_node_wellFormed)).
Defined.

Lemma buildFunction_named_filled (target : Variant) (parts : Parts) :
  avoids ["{typeParams}"; "{params}"; "{returnType}"; "{body}"]
    (part_typeAnnotation parts) = true ->
  avoids ["{params}"; "{returnType}"; "{body}"] (part_typeParams parts)
  = true ->
  avoids ["{returnType}"; "{body}"] (part_params parts) = true ->
  avoids ["{body}"] (part_returnType parts) = true ->
  avoids [] (part_body parts) = true ->
  avoids [] (part_name parts) = true ->
  buildFunction (NAMED_FUNCTION_TEMPLATES (Some target)) parts
  = inr (namedText target parts).
Proof.
  intros Ha Ht Hp Hr Hb Hn. destruct target.
  - now apply buildFunction_declaration.
  - now apply buildFunction_named_arrow.
  - now apply buildFunction_named_expression.
Qed.

(** X7. [buildFunction] on a named template: when the type annotation,
    the type parameters, the parameter list and the return type contain
    none of the placeholders [{typeParams}], [{params}], [{returnType}],
    [{body}] that are substituted after them, and no fragment contains
    one of the replacement patterns [$$], [$&], [$`], [$'], the result
    is the template with every placeholder replaced by its fragment, a
    missing fragment by the empty string. *)
Theorem buildFunction_named_text (target : Variant) (parts : Parts) :
  avoids ["{typeParams}"; "{params}"; "{returnType}"; "{body}"]
    (part_typeAnnotation parts) = true ->
  avoids ["{params}"; "{returnType}"; "{body}"] (part_typeParams parts)
  = true ->
  avoids ["{returnType}"; "{body}"] (part_params parts) = true ->
  avoids ["{body}"] (part_returnType parts) = true ->
  avoids [] (part_body parts) = true ->
  avoids [] (part_name parts) = true ->
  buildFunction (NAMED_FUNCTION_TEMPLATES (Some target)) parts
  = inr (namedText target parts).
Proof. apply buildFunction_named_filled. Qed.

Lemma buildFunction_unnamed_filled (target : Variant) (parts : Parts) :
  avoids ["{params}"; "{returnType}"; "{body}"; "{name}"]
    (part_typeParams parts) = true ->
  avoids ["{returnType}"; "{body}"; "{name}"] (part_params parts) = true ->
  avoids ["{body}"; "{name}"] (part_returnType parts) = true ->
  avoids ["{name}"] (part_body parts) = true ->
  buildFunction (UNNAMED_FUNCTION_TEMPLATES (Some target)) parts
  = match unnamedText target parts with
    | Some text => inr text
    | None => inl TypeError
    end.
Proof.
  intros Ht Hp Hr Hb. destruct target; cbn [unnamedText].
  - reflexivity.
  - now apply buildFunction_unnamed_arrow.
  - now apply buildFunction_unnamed_expression.
Qed.

(** X8. [buildFunction] on an unnamed template: when the fragments
    contain neither a later placeholder, nor [{name}], nor a replacement
    pattern, the result is the template filled in, whatever the [name]
    part holds; for the style [function-declaration] there is no unnamed
    template and the call throws. *)
Theorem buildFunction_unnamed_text (target : Variant) (parts : Parts) :
  avoids ["{params}"; "{returnType}"; "{body}"; "{name}"]
    (part_typeParams parts) = true ->
  avoids ["{returnType}"; "{body}"; "{name}"] (part_params parts) = true ->
  avoids ["{body}"; "{name}"] (part_returnType parts) = true ->
  avoids ["{name}"] (part_body parts) = true ->
  buildFunction (UNNAMED_FUNCTION_TEMPLATES (Some target)) parts
  = match unnamedText target parts with
    | Some text => inr text
    | None => inl TypeError
    end.
Proof. apply buildFunction_unnamed_filled. Qed.

Lemma offered_fix_inv
    (context : Context) (components : Node -> bool)
    (node : Node) (functionType : Variant)
    (reported : list Diagnostic) (d : Diagnostic) (f : Fix) (named : bool) :
  validate context components node functionType = inr reported ->
  In d reported ->
  diag_fix d = Some f ->
  hasName node = inr named ->
  exists range typeAnnotation,
    getTypeAnnotation node (sourceText context) = inr typeAnnotation /\
    f = mkFix node
          (mkFixerOptions (hd_error (reportedList context named))
             (reportedTemplate named (hd_error (reportedList context named)))
             range)
          typeAnnotation /\
    (named = false -> range = node_range node).
Proof.
  intros Hv Hin Hfix Hn.
  destruct (validate_inv _ _ _ _ _ _ Hv Hin)
    as (named' & range & fx & Hn' & _ & _ & Hrange & Hf & _ & Hd).
  rewrite Hn in Hn'. injection Hn' as <-.
  apply getFixer_inv in Hf. destruct Hf as (ta & Hta & Hfx).
  subst d. cbn in Hfix. subst fx.
  destruct (guarded node _ ta); [discriminate|].
  injection Hfx as ->.
  exists range, ta. repeat split; try assumption.
  intros ->. exact Hrange.
Qed.

(** X10. The fix offered for a named component, when called, returns an
    edit at the reported range whose text is the named template of the
    head of [namedComponents], filled with the binding's type annotation,
    the type parameters, the parameter list, the return type, the body
    and the name as they are read from the source, provided those
    fragments contain no later placeholder and no replacement pattern. *)
Theorem named_fix_text
    (context : Context) (components : Node -> bool)
    (node : Node) (functionType : Variant)
    (reported : list Diagnostic) (d : Diagnostic) (f : Fix)
    (target : Variant) (typeAnnotation name : option string) :
  validate context components node functionType = inr reported ->
  In d reported ->
  diag_fix d = Some f ->
  hasName node = inr true ->
  hd_error (namedConfig context) = Some target ->
  getTypeAnnotation node (sourceText context) = inr typeAnnotation ->
  getName node = inr name ->
  let parts := fragments (sourceText context) node typeAnnotation name in
  avoids ["{typeParams}"; "{params}"; "{returnType}"; "{body}"]
    (part_typeAnnotation parts) = true ->
  avoids ["{params}"; "{returnType}"; "{body}"] (part_typeParams parts)
  = true ->
  avoids ["{returnType}"; "{body}"] (part_params parts) = true ->
  avoids ["{body}"] (part_returnType parts) = true ->
  avoids [] (part_body parts) = true ->
  avoids [] (part_name parts) = true ->
  runFix context f
  = inr (mkTextEdit (fo_range (fix_options f)) (namedText target parts)).
Proof.
  intros Hv Hin Hfix Hn Htarget Hta Hname parts Ha Ht Hp Hr Hb Hnm.
  destruct (offered_fix_inv _ _ _ _ _ _ _ _ Hv Hin Hfix Hn)
    as (range & ta & Hta' & -> & _).
  rewrite Hta in Hta'. injection Hta' as <-.
  unfold runFix. cbn [fix_node fix_options fo_template fo_range
                       fix_typeAnnotation].
  rewrite Hname. cbn. unfold reportedList, reportedTemplate.
  rewrite Htarget.
  change (mkParts _ _ _ _ _ _) with parts.
  rewrite (buildFunction_named_filled target parts Ha Ht Hp Hr Hb Hnm).
  reflexivity.
Qed.

Lemma getName_unnamed (node : Node) :
  hasName node = inr false -> getName node = inr None.
Proof.
  unfold getName. intros H.
  destruct (node_type node) eqn:Ht.
  - unfold hasName in H. rewrite Ht in H. discriminate.
  - now rewrite H.
  - now rewrite H.
Qed.

Lemma getTypeAnnotation_unnamed (node : Node) (source : string) :
  hasName node = inr false -> getTypeAnnotation node source = inr None.
Proof. unfold getTypeAnnotation. now intros ->. Qed.

(** X11. The fix offered for an unnamed component, when called, returns
    an edit at the node's own range whose text is the unnamed template of
    the head of [unnamedComponents] filled with the fragments read from
    the source, provided they contain neither a later placeholder, nor
    [{name}], nor a replacement pattern; it throws when that head is
    [function-declaration]. *)
Theorem unnamed_fix_text
    (context : Context) (components : Node -> bool)
    (node : Node) (functionType : Variant)
    (reported : list Diagnostic) (d : Diagnostic) (f : Fix)
    (target : Variant) :
  validate context components node functionType = inr reported ->
  In d reported ->
  diag_fix d = Some f ->
  hasName node = inr false ->
  hd_error (unnamedConfig context) = Some target ->
  let parts := fragments (sourceText context) node None None in
  avoids ["{params}"; "{returnType}"; "{body}"; "{name}"]
    (part_typeParams parts) = true ->
  avoids ["{returnType}"; "{body}"; "{name}"] (part_params parts) = true ->
  avoids ["{body}"; "{name}"] (part_returnType parts) = true ->
  avoids ["{name}"] (part_body parts) = true ->
  runFix context f
  = match unnamedText target parts with
    | Some text => inr (mkTextEdit (node_range node) text)
    | None => inl TypeError
    end.
Proof.
  intros Hv Hin Hfix Hn Htarget parts Ht Hp Hr Hb.
  destruct (offered_fix_inv _ _ _ _ _ _ _ _ Hv Hin Hfix Hn)
    as (range & ta & Hta & -> & Hrange).
  rewrite (getTypeAnnotation_unnamed _ _ Hn) in Hta. injection Hta as <-.
  rewrite (Hrange eq_refl).
  unfold runFix. cbn [fix_node fix_options fo_template fo_range
                       fix_typeAnnotation].
  rewrite (getName_unnamed _ Hn). cbn.
  unfold reportedList, reportedTemplate. rewrite Htarget.
  pose proof (buildFunction_unnamed_filled target parts Ht Hp Hr Hb) as Hbf.
  unfold parts, fragments in Hbf |- *. rewrite Hbf.
  now destruct (unnamedText target _).
Qed.

(** X12. When the body of an unnamed component contains the text
    [{name}], the offered fix removes its first occurrence from the
    rewritten function: the final substitution of the name, which is
    absent for an unnamed node, finds it in the body. *)
Theorem unnamed_fix_drops_name
    (context : Context) (components : Node -> bool)
    (node : Node) (functionType : Variant)
    (reported : list Diagnostic) (d : Diagnostic) (f : Fix)
    (target : Variant) (before after : string) :
  validate context components node functionType = inr reported ->
  In d reported ->
  diag_fix d = Some f ->
  hasName node = inr false ->
  hd_error (unnamedConfig context) = Some target ->
  let parts := fragments (sourceText context) node None None in
  avoids ["{params}"; "{returnType}"; "{body}"; "{name}"]
    (part_typeParams parts) = true ->
  avoids ["{returnType}"; "{body}"; "{name}"] (part_params parts) = true ->
  avoids ["{body}"; "{name}"] (part_returnType parts) = true ->
  getBody node (sourceText context) = before ++ "{name}" ++ after ->
  mentions "{name}" before = false ->
  patternFree (before ++ "{name}" ++ after) = true ->
  runFix context f
  = match
      unnamedText target
        (mkParts None (part_typeParams parts) (part_params parts)
           (part_returnType parts) (Some (before ++ after)) None)
    with
    | Some text => inr (mkTextEdit (node_range node) text)
    | None => inl TypeError
    end.
Proof.
  intros Hv Hin Hfix Hn Htarget parts Ht Hp Hr Hbody Hbefore Hfree.
  destruct (offered_fix_inv _ _ _ _ _ _ _ _ Hv Hin Hfix Hn)
    as (range & ta & Hta & -> & Hrange).
  rewrite (getTypeAnnotation_unnamed _ _ Hn) in Hta. injection Hta as <-.
  rewrite (Hrange eq_refl).
  unfold runFix. cbn [fix_node fix_options fo_template fo_range
                       fix_typeAnnotation].
  rewrite (getName_unnamed _ Hn). cbn.
  unfold reportedList, reportedTemplate. rewrite Htarget.
  assert (Hb : part_body parts = Some (before ++ "{name}" ++ after)).
  { unfold parts, fragments. cbn. now rewrite Hbody. }
  destruct target; cbn [unnamedText part_typeParams part_params
                         part_returnType part_body].
  - reflexivity.
  - pose proof (buildFunction_unnamed_arrow_drops_name parts before after
                  Ht Hp Hr Hb Hfree Hbefore eq_refl) as Hbf.
    unfold parts, fragments in Hbf |- *. now rewrite Hbf.
  - pose proof (buildFunction_unnamed_expression_drops_name parts before
                  after Ht Hp Hr Hb Hfree Hbefore eq_refl) as Hbf.
    unfold parts, fragments in Hbf |- *. now rewrite Hbf.
Qed.

Lemma replace_expand (segments : list string)
    (pat post replacement acc : string) :
  acc = cat segments (pat ++ post) ->
  pat <> "" ->
  skips pat segments (pat ++ post) ->
  replace acc pat replacement
  = cat segments
      (getSubstitution pat (cat segments "") post replacement ++ post).
Proof. intros -> Hne Hskip. now apply replace_cat. Qed.

Ltac expand_hole segments post :=
  match goal with
  | |- context [replace ?acc ?pat ?r] =>
      lazymatch acc with
      | context [replace _ _ _] => fail
      | _ => rewrite (replace_expand segments pat post r acc) by fill_side
      end
  end.

(** X9. In a named template the body is not copied verbatim: it is
    inserted as a replacement string, so [$$], [$&], [$`] and [$'] in it
    are expanded against the text that precedes the [{body}]
    placeholder, in which the name is still the placeholder [{name}]. *)
Theorem buildFunction_expands_patterns_in_body
    (target : Variant) (parts : Parts) :
  avoids ["{typeParams}"; "{params}"; "{returnType}"; "{body}"]
    (part_typeAnnotation parts) = true ->
  avoids ["{params}"; "{returnType}"; "{body}"] (part_typeParams parts)
  = true ->
  avoids ["{returnType}"; "{body}"] (part_params parts) = true ->
  avoids ["{body}"] (part_returnType parts) = true ->
  avoids [] (part_name parts) = true ->
  buildFunction (NAMED_FUNCTION_TEMPLATES (Some target)) parts
  = inr (namedText target
           (withBody parts
              (getSubstitution "{body}" (textBeforeBody target parts) ""
                 (or_empty (part_body parts))))).
Proof.
  intros Ha Ht Hp Hr Hn.
  unfold namedText, textBeforeBody, withBody.
  cbn [part_typeAnnotation part_typeParams part_params part_returnType
       part_body part_name or_empty].
  set (ta := or_empty (part_typeAnnotation parts)).
  set (tp := or_empty (part_typeParams parts)).
  set (ps := or_empty (part_params parts)).
  set (rt := or_empty (part_returnType parts)).
  set (bd := or_empty (part_body parts)).
  set (nm := or_empty (part_name parts)).
  destruct target; cbn [NAMED_FUNCTION_TEMPLATES];
    rewrite buildFunction_unfold; fold ta tp ps rt bd nm.
  - rewrite (replace_absent _ "{typeAnnotation}" ta) by reflexivity.
    fill_hole ["function {name}"] "({params}){returnType} {body}".
    fill_hole ["function {name}"; tp; "("] "){returnType} {body}".
    fill_hole ["function {name}"; tp; "("; ps; ")"] " {body}".
    expand_hole ["function {name}"; tp; "("; ps; ")"; rt; " "] "".
    cbn [cat]. rewrite !append_empty_r.
    match goal with
    | |- context [getSubstitution ?m ?b ?a bd] =>
        set (body := getSubstitution m b a bd)
    end.
    fill_hole ["function "] (tp ++ "(" ++ ps ++ ")" ++ rt ++ " " ++ body).
    reflexivity.
  - fill_hole ["var {name}"]
      " = {typeParams}({params}){returnType} => {body}".
    fill_hole ["var {name}"; ta; " = "] "({params}){returnType} => {body}".
    fill_hole ["var {name}"; ta; " = "; tp; "("] "){returnType} => {body}".
    fill_hole ["var {name}"; ta; " = "; tp; "("; ps; ")"] " => {body}".
    expand_hole ["var {name}"; ta; " = "; tp; "("; ps; ")"; rt;
                          " => "] "".
    cbn [cat]. rewrite !append_empty_r.
    match goal with
    | |- context [getSubstitution ?m ?b ?a bd] =>
        set (body := getSubstitution m b a bd)
    end.
    fill_hole ["var "]
      (ta ++ " = " ++ tp ++ "(" ++ ps ++ ")" ++ rt ++ " => " ++ body).
    reflexivity.
  - fill_hole ["var {name}"]
      " = function{typeParams}({params}){returnType} {body}".
    fill_hole ["var {name}"; ta; " = function"]
      "({params}){returnType} {body}".
    fill_hole ["var {name}"; ta; " = function"; tp; "("]
      "){returnType} {body}".
    fill_hole ["var {name}"; ta; " = function"; tp; "("; ps; ")"] " {body}".
    expand_hole ["var {name}"; ta; " = function"; tp; "("; ps; ")";
                          rt; " "] "".
    cbn [cat]. rewrite !append_empty_r.
    match goal with
    | |- context [getSubstitution ?m ?b ?a bd] =>
        set (body := getSubstitution m b a bd)
    end.
    fill_hole ["var "]
      (ta ++ " = function" ++ tp ++ "(" ++ ps ++ ")" ++ rt ++ " " ++ body).
    reflexivity.
Qed.

Lemma reported_iff_not_selected_witness :
  visit add_context (always true) add_node
  = inr [mkDiagnostic add_node
           (Some "Function component is not a function expression")
           (Some function_expression) (Some add_fix)] /\
  selectedList add_context add_node = inr [function_expression] /\
  ~ In arrow_function [function_expression].
Proof.
  split; [reflexivity|]. split; [reflexivity|].
  destruct (reported_iff_not_selected add_context (always true) add_node
              arrow_function _ [function_expression]
              eq_refl eq_refl eq_refl eq_refl) as [[_ Hnil] _].
  intros Hin. specialize (Hnil Hin). discriminate Hnil.
Defined.

Lemma no_message_iff_empty_array_witness :
  visit empty_array_context (always true) add_node
  = inr [mkDiagnostic add_node None None (Some empty_array_fix)] /\
  runFix empty_array_context empty_array_fix = inl TypeError.
Proof.
  split; [reflexivity|].
  destruct (no_message_iff_empty_array empty_array_context (always true)
              add_node arrow_function
              [mkDiagnostic add_node None None (Some empty_array_fix)]
              (mkDiagnostic add_node None None (Some empty_array_fix))
              eq_refl (or_introl eq_refl))
    as (named & _ & _ & _ & Hthrows).
  exact (Hthrows empty_array_fix eq_refl eq_refl).
Defined.

Lemma reported_style_is_not_own_witness :
  visit add_context (always true) add_node
  = inr [mkDiagnostic add_node
           (Some "Function component is not a function expression")
           (Some function_expression) (Some add_fix)] /\
  fo_type (fix_options add_fix) <> Some arrow_function.
Proof.
  split; [reflexivity|].
  exact (proj2
           (reported_style_is_not_own add_context (always true) add_node
              arrow_function _ _ eq_refl (or_introl eq_refl))
           add_fix eq_refl).
Defined.

Lemma offered_fix_throws_iff_witness :
  visit add_context (always true) add_node
  = inr [mkDiagnostic add_node
           (Some "Function component is not a function expression")
           (Some function_expression) (Some add_fix)] /\
  (runFix add_context add_fix = inl TypeError <->
     Some function_expression = None \/
     (hasName add_node = inr false /\
      Some function_expression = Some function_declaration) \/
     (node_type add_node = FunctionDeclaration /\ node_id add_node = None)).
Proof.
  split; [reflexivity|].
  exact (offered_fix_throws_iff add_context (always true) add_node
           arrow_function _
           (mkDiagnostic add_node
              (Some "Function component is not a function expression")
              (Some function_expression) (Some add_fix))
           add_fix eq_refl (or_introl eq_refl) eq_refl).
Defined.

Lemma buildFunction_named_text_witness :
  buildFunction (NAMED_FUNCTION_TEMPLATES (Some function_declaration))
    add_parts
  = inr "function Add(a: number, b: number): number { return a + b }".
Proof.
  exact (buildFunction_named_text function_declaration add_parts
           eq_refl eq_refl eq_refl eq_refl eq_refl eq_refl).
Defined.

Lemma buildFunction_unnamed_text_witness :
  buildFunction (UNNAMED_FUNCTION_TEMPLATES (Some arrow_function)) add_parts
  = inr "(a: number, b: number): number => { return a + b }".
Proof.
  exact (buildFunction_unnamed_text arrow_function add_parts
           eq_refl eq_refl eq_refl eq_refl).
Defined.

Lemma named_fix_text_witness :
  visit add_context (always true) add_node
  = inr [mkDiagnostic add_node
           (Some "Function component is not a function expression")
           (Some function_expression) (Some add_fix)] /\
  runFix add_context add_fix
  = inr (mkTextEdit (0, 52)
           ("var Add = function(a: number, b: number): number {"
              ++ LF ++ "  return a + b" ++ LF ++ "}")).
Proof.
  split; [reflexivity|].
  exact (named_fix_text add_context (always true) add_node arrow_function
           _ _ add_fix function_expression None (Some "Add")
           eq_refl (or_introl eq_refl) eq_refl eq_refl eq_refl eq_refl
           eq_refl eq_refl eq_refl eq_refl eq_refl eq_refl eq_refl).
Defined.

Lemma unnamed_fix_text_witness :
  visit plain_context (always true) plain_node
  = inr [mkDiagnostic plain_node
           (Some "Function component is not a function expression")
           (Some function_expression) (Some plain_fix)] /\
  runFix plain_context plain_fix
  = inr (mkTextEdit (15, 25)
           ("function() {" ++ LF ++ "  return null" ++ LF ++ "}")).
Proof.
  split; [reflexivity|].
  exact (unnamed_fix_text plain_context (always true) plain_node
           arrow_function _ _ plain_fix function_expression
           eq_refl (or_introl eq_refl) eq_refl eq_refl eq_refl
           eq_refl eq_refl eq_refl eq_refl).
Defined.

Lemma unnamed_fix_drops_name_witness :
  visit anonymous_context (always true) anonymous_node
  = inr [mkDiagnostic anonymous_node
           (Some "Function component is not a function expression")
           (Some function_expression) (Some anonymous_fix)] /\
  getBody anonymous_node anonymous_source
  = ("{" ++ LF ++ "  return <b>") ++ "{name}" ++ ("</b>" ++ LF ++ "}") /\
  runFix anonymous_context anonymous_fix
  = inr (mkTextEdit (15, 39)
           ("function(props) {" ++ LF ++ "  return <b></b>" ++ LF ++ "}")).
Proof.
  split; [reflexivity|]. split; [reflexivity|].
  exact (unnamed_fix_drops_name anonymous_context (always true)
           anonymous_node arrow_function _ _ anonymous_fix
           function_expression
           ("{" ++ LF ++ "  return <b>") ("</b>" ++ LF ++ "}")
           eq_refl (or_introl eq_refl) eq_refl eq_refl eq_refl
           eq_refl eq_refl eq_refl eq_refl eq_refl eq_refl).
Defined.

Lemma buildFunction_expands_patterns_in_body_witness :
  buildFunction (NAMED_FUNCTION_TEMPLATES (Some function_declaration))
    dollar_parts
  = inr "function Price() { return ' }".
Proof.
  exact (buildFunction_expands_patterns_in_body function_declaration
           dollar_parts eq_refl eq_refl eq_refl eq_refl eq_refl).
Defined.

(* ------------------------------------------------------------------ *)
(** ** Properties of the sample functions *)
(* ------------------------------------------------------------------ *)

Lemma closer_is_not_opener (opener closer : ascii) :
  bracket_mapping opener = Some closer -> bracket_mapping closer = None.
Proof.
  unfold bracket_mapping.
  destruct (Ascii.eqb opener "("); [now intros [= <-]|].
  destruct (Ascii.eqb opener "{"); [now intros [= <-]|].
  destruct (Ascii.eqb opener "["); [now intros [= <-]|].
  discriminate.
Qed.

Lemma isValid_from_balanced (s : string) :
  Balanced s ->
  forall stack rest,
    isValid_from stack (s ++ rest) = isValid_from stack rest.
Proof.
  induction 1 as [|opener closer inner tail Hm _ IHinner _ IHtail];
    intros stack rest; [reflexivity|].
  cbn [append isValid_from]. rewrite Hm.
  rewrite append_assoc, IHinner.
  cbn [append isValid_from].
  rewrite (closer_is_not_opener _ _ Hm), Hm, Ascii.eqb_refl.
  apply IHtail.
Qed.

Lemma Balanced_append (a b : string) :
  Balanced a -> Balanced b -> Balanced (a ++ b).
Proof.
  induction 1 as [|opener closer inner tail Hm Hinner _ _ IHtail];
    intros Hb; [assumption|].
  cbn [append]. rewrite append_assoc. cbn [append].
  apply Balanced_pair; auto.
Qed.

Lemma Closes_prepend (stack : list ascii) (a s : string) :
  Balanced a -> Closes stack s -> Closes stack (a ++ s).
Proof.
  intros Ha. destruct stack as [|top below]; cbn [Closes].
  - now apply Balanced_append.
  - intros (inner & closer & rest & -> & Hinner & Hm & Hrest).
    exists (a ++ inner), closer, rest.
    rewrite append_assoc. repeat split; try assumption.
    now apply Balanced_append.
Qed.

Lemma isValid_from_closes (s : string) :
  forall stack, isValid_from stack s = true -> Closes stack s.
Proof.
  induction s as [|c s IH]; intros stack H.
  - destruct stack; [constructor | discriminate].
  - cbn [isValid_from] in H.
    destruct (bracket_mapping c) as [closer|] eqn:Hc.
    + apply IH in H. cbn [Closes] in H.
      destruct H as (inner & closer' & rest & -> & Hinner & Hm & Hrest).
      assert (E : String c (inner ++ String closer' rest)
                  = String c (inner ++ String closer' "") ++ rest).
      { cbn [append]. now rewrite append_assoc. }
      rewrite E.
      apply Closes_prepend; [|assumption].
      apply Balanced_pair; [congruence | assumption | constructor].
    + destruct stack as [|top below]; [discriminate|].
      destruct (bracket_mapping top) as [closer|] eqn:Ht; [|discriminate].
      destruct (Ascii.eqb_spec closer c) as [->|]; [|discriminate].
      apply IH in H. cbn [Closes].
      exists "", c, s. repeat split; try assumption. constructor.
Qed.

(** X13. [isValid] returns true exactly on the well-bracketed strings
    over the three pairs of brackets; any other character makes it
    false. *)
Theorem isValid_iff_Balanced (s : string) :
  isValid s = true <-> Balanced s.
Proof.
  unfold isValid. split.
  - intros H. now apply (isValid_from_closes s []).
  - intros H. rewrite <- (append_empty_r s).
    now rewrite (isValid_from_balanced s H).
Qed.

Lemma repeat_open_succ (k : nat) :
  repeat "("%char (S k) = "("%char :: repeat "("%char k.
Proof. reflexivity. Qed.

Lemma generateParenthesis_helper_sound (n : nat) (partial : string)
    (opened closed : nat) (s : string) :
  In s (generateParenthesis_helper n partial opened closed) ->
  closed <= opened -> opened <= n ->
  exists suffix,
    s = partial ++ suffix /\
    String.length suffix = (n - opened) + (n - closed) /\
    onlyParentheses suffix = true /\
    isValid_from (repeat "("%char (opened - closed)) suffix = true.
Proof.
  funelim (generateParenthesis_helper n partial opened closed);
    intros Hin Hco Hon.
  - (* both counters have reached [n] *)
    destruct Hin as [<-|[]].
    apply andb_true_iff in Heq. destruct Heq as [Hoc Hn].
    apply Nat.eqb_eq in Hoc, Hn. subst.
    exists "". rewrite append_empty_r, !Nat.sub_diag. now repeat split.
  - apply in_app_or in Hin. destruct Hin as [Hin|Hin].
    + destruct (H s Hin ltac:(lia) ltac:(lia))
        as (suffix & -> & Hlen & Honly & Hvalid).
      exists (String "(" suffix). rewrite append_assoc. split; [reflexivity|].
      split; [cbn [String.length]; lia|]. split; [exact Honly|].
      cbn [isValid_from bracket_mapping Ascii.eqb]. cbn.
      replace (opened + 1 - closed) with (S (opened - closed)) in Hvalid
        by lia.
      exact Hvalid.
    + destruct (H0 s Hin ltac:(lia) ltac:(lia))
        as (suffix & -> & Hlen & Honly & Hvalid).
      exists (String ")" suffix). rewrite append_assoc. split; [reflexivity|].
      split; [cbn [String.length]; lia|]. split; [exact Honly|].
      replace (opened - closed) with (S (opened - (closed + 1))) by lia.
      cbn. exact Hvalid.
  - destruct (H s Hin ltac:(lia) ltac:(lia))
      as (suffix & -> & Hlen & Honly & Hvalid).
    exists (String "(" suffix). rewrite append_assoc. split; [reflexivity|].
    split; [cbn [String.length]; lia|]. split; [exact Honly|].
    cbn.
    replace (opened + 1 - closed) with (S (opened - closed)) in Hvalid
      by lia.
    exact Hvalid.
  - destruct (H s Hin ltac:(lia) ltac:(lia))
      as (suffix & -> & Hlen & Honly & Hvalid).
    exists (String ")" suffix). rewrite append_assoc. split; [reflexivity|].
    split; [cbn [String.length]; lia|]. split; [exact Honly|].
    replace (opened - closed) with (S (opened - (closed + 1))) by lia.
    cbn. exact Hvalid.
  - destruct Hin.
Qed.

Lemma generateParenthesis_sound (n : nat) (s : string) :
  In s (generateParenthesis n) ->
  String.length s = 2 * n /\ onlyParentheses s = true /\ isValid s = true.
Proof.
  intros Hin.
  destruct (generateParenthesis_helper_sound n "" 0 0 s Hin
              (Nat.le_refl 0) (Nat.le_0_l n))
    as (suffix & -> & Hlen & Honly & Hvalid).
  cbn [append]. split; [lia|]. now split.
Qed.

Lemma generateParenthesis_helper_step (n : nat) (partial : string)
    (opened closed : nat) :
  generateParenthesis_helper n partial opened closed
  = if Nat.eqb opened closed && Nat.eqb opened n then [partial]
    else
      ((if Nat.ltb opened n
        then generateParenthesis_helper n (partial ++ "(") (opened + 1) closed
        else [])
       ++ (if Nat.ltb closed opened
           then generateParenthesis_helper n (partial ++ ")") opened
                  (closed + 1)
           else []))%list.
Proof.
  funelim (generateParenthesis_helper n partial opened closed);
    clear Heqcall;
    repeat match goal with
           | H : generateParenthesis_helper _ _ _ _ = _ |- _ => clear H
           | H : lt_dec _ _ = _ |- _ => clear H
           | H : (_ && _)%bool = _ |- _ => rewrite H; clear H
           | H : ?a < ?b |- _ =>
               rewrite (proj2 (Nat.ltb_lt a b) H); clear H
           | H : ~ ?a < ?b |- _ =>
               rewrite (proj2 (Nat.ltb_ge a b) ltac:(lia)); clear H
           end;
    cbn [app]; try reflexivity; now rewrite app_nil_r.
Qed.

Lemma onlyParentheses_length (s : string) :
  onlyParentheses s = true ->
  String.length s = occurrences "(" s + occurrences ")" s.
Proof.
  induction s as [|c s IH]; [reflexivity|].
  cbn [onlyParentheses occurrences String.length]. intros H.
  apply andb_true_iff in H. destruct H as [Hc Hs]. specialize (IH Hs).
  apply orb_true_iff in Hc.
  destruct Hc as [Hc|Hc]; apply Ascii.eqb_eq in Hc; subst c; cbn; lia.
Qed.

Lemma isValid_from_counts (s : string) :
  forall stack,
    onlyParentheses s = true ->
    isValid_from stack s = true ->
    occurrences ")" s = occurrences "(" s + List.length stack.
Proof.
  induction s as [|c s IH]; intros stack Honly Hvalid.
  - destruct stack; [reflexivity | discriminate].
  - cbn [onlyParentheses] in Honly. apply andb_true_iff in Honly.
    destruct Honly as [Hc Hs]. apply orb_true_iff in Hc.
    destruct Hc as [Hc|Hc]; apply Ascii.eqb_eq in Hc; subst c;
      cbn in Hvalid |- *.
    + rewrite (IH _ Hs Hvalid). cbn [List.length]. lia.
    + destruct stack as [|top below]; [discriminate|].
      destruct (bracket_mapping top) as [closer|]; [|discriminate].
      destruct (Ascii.eqb closer ")"); [|discriminate].
      rewrite (IH _ Hs Hvalid). cbn [List.length]. lia.
Qed.

Lemma generateParenthesis_helper_complete (n : nat) (suffix : string) :
  forall partial opened closed,
    closed <= opened -> opened <= n ->
    onlyParentheses suffix = true ->
    isValid_from (repeat "("%char (opened - closed)) suffix = true ->
    String.length suffix = (n - opened) + (n - closed) ->
    In (partial ++ suffix)
       (generateParenthesis_helper n partial opened closed).
Proof.
  induction suffix as [|c suffix IH];
    intros partial opened closed Hco Hon Honly Hvalid Hlen.
  - cbn [String.length] in Hlen.
    rewrite generateParenthesis_helper_step.
    replace closed with n by lia. replace opened with n by lia.
    rewrite Nat.eqb_refl, append_empty_r. now left.
  - pose proof (onlyParentheses_length _ Honly) as Hl.
    pose proof (isValid_from_counts _ _ Honly Hvalid) as Hcount.
    rewrite repeat_length in Hcount.
    cbn [onlyParentheses] in Honly. apply andb_true_iff in Honly.
    destruct Honly as [Hc Hs]. apply orb_true_iff in Hc.
    rewrite generateParenthesis_helper_step.
    destruct Hc as [Hc|Hc]; apply Ascii.eqb_eq in Hc; subst c;
      cbn in Hvalid, Hl, Hcount, Hlen.
    + assert (Hlt : opened < n) by lia.
      replace (Nat.eqb opened n) with false
        by (symmetry; apply Nat.eqb_neq; lia).
      rewrite andb_false_r, (proj2 (Nat.ltb_lt _ _) Hlt).
      apply in_or_app. left.
      replace (partial ++ String "(" suffix)
        with ((partial ++ "(") ++ suffix)
        by (now rewrite append_assoc).
      apply IH; try lia; try assumption.
      now replace (opened + 1 - closed) with (S (opened - closed)) by lia.
    + destruct (opened - closed) as [|k] eqn:Hk; [discriminate|].
      cbn in Hvalid.
      assert (Hlt : closed < opened) by lia.
      replace (Nat.eqb opened closed) with false
        by (symmetry; apply Nat.eqb_neq; lia).
      cbn [andb]. rewrite (proj2 (Nat.ltb_lt _ _) Hlt).
      apply in_or_app. right.
      replace (partial ++ String ")" suffix)
        with ((partial ++ ")") ++ suffix)
        by (now rewrite append_assoc).
      apply IH; try lia; try assumption.
      now replace (opened - (closed + 1)) with k by lia.
Qed.

Lemma generateParenthesis_members (n : nat) (s : string) :
  In s (generateParenthesis n) <->
  String.length s = 2 * n /\ onlyParentheses s = true /\ isValid s = true.
Proof.
  split.
  - apply generateParenthesis_sound.
  - intros (Hlen & Honly & Hvalid).
    apply (generateParenthesis_helper_complete n s "" 0 0);
      try assumption; lia.
Qed.

Lemma append_inv_head (a b c : string) : a ++ b = a ++ c -> b = c.
Proof.
  induction a as [|x a IH]; cbn [append]; [auto|].
  intros [= H]. now apply IH.
Qed.

Lemma generateParenthesis_helper_prefix (n : nat) (partial : string)
    (opened closed : nat) (s : string) :
  In s (generateParenthesis_helper n partial opened closed) ->
  exists suffix, s = partial ++ suffix.
Proof.
  funelim (generateParenthesis_helper n partial opened closed); intros Hin.
  - destruct Hin as [<-|[]]. exists "". now rewrite append_empty_r.
  - apply in_app_or in Hin. destruct Hin as [Hin|Hin].
    + destruct (H _ Hin) as [suffix ->]. rewrite append_assoc. now eexists.
    + destruct (H0 _ Hin) as [suffix ->]. rewrite append_assoc. now eexists.
  - destruct (H _ Hin) as [suffix ->]. rewrite append_assoc. now eexists.
  - destruct (H _ Hin) as [suffix ->]. rewrite append_assoc. now eexists.
  - destruct Hin.
Qed.

Lemma generateParenthesis_helper_NoDup (n : nat) (partial : string)
    (opened closed : nat) :
  NoDup (generateParenthesis_helper n partial opened closed).
Proof.
  funelim (generateParenthesis_helper n partial opened closed);
    try assumption.
  - constructor; [intros [] | constructor].
  - apply NoDup_app; try assumption.
    intros s Hopen Hclose.
    apply generateParenthesis_helper_prefix in Hopen, Hclose.
    destruct Hopen as [x ->]. destruct Hclose as [y Hy].
    rewrite !append_assoc in Hy. apply append_inv_head in Hy.
    discriminate Hy.
  - constructor.
Qed.

(** X14. [generateParenthesis n] lists, without repetition, exactly
    the strings of [n] opening and [n] closing parentheses that [isValid]
    accepts. *)
Theorem generateParenthesis_spec (n : nat) :
  NoDup (generateParenthesis n) /\
  forall s,
    In s (generateParenthesis n) <->
    String.length s = 2 * n /\ onlyParentheses s = true /\
    isValid s = true.
Proof.
  split.
  - apply generateParenthesis_helper_NoDup.
  - apply generateParenthesis_members.
Qed.

Lemma keypad_mapping_nonempty (digit : ascii) (letters : string) :
  keypad_mapping digit = Some letters -> exists c rest, letters = String c rest.
Proof.
  unfold keypad_mapping.
  repeat match goal with
         | |- context [if ?b then _ else _] =>
             destruct b; [intros [= <-]; now eexists; eexists|]
         end.
  discriminate.
Qed.

Lemma each_letter_pure (next : ascii -> Exc (list string))
    (results : ascii -> list string) (letters : string) :
  (forall c, next c = inr (results c)) ->
  each_letter next letters
  = inr (flat_map results (list_ascii_of_string letters)).
Proof.
  intros Hnext. induction letters as [|c rest IH]; [reflexivity|].
  cbn [each_letter list_ascii_of_string flat_map].
  rewrite Hnext, IH. reflexivity.
Qed.

Lemma letterCombinations_helper_pure (remaining : string) :
  allKeypadDigits remaining = true ->
  forall prefix,
    letterCombinations_helper remaining prefix
    = inr (combinationsFrom remaining prefix).
Proof.
  induction remaining as [|digit rest IH]; intros Hall prefix;
    [reflexivity|].
  cbn [allKeypadDigits] in Hall.
  cbn [letterCombinations_helper combinationsFrom].
  destruct (keypad_mapping digit) as [letters|]; [|discriminate].
  cbn. apply each_letter_pure. intros c. now apply IH.
Qed.

Lemma letterCombinations_helper_throws (remaining : string) :
  allKeypadDigits remaining = false ->
  forall prefix, letterCombinations_helper remaining prefix = inl TypeError.
Proof.
  induction remaining as [|digit rest IH]; intros Hall prefix;
    [discriminate|].
  cbn [allKeypadDigits] in Hall. cbn [letterCombinations_helper].
  destruct (keypad_mapping digit) as [letters|] eqn:Hm; [|reflexivity].
  destruct (keypad_mapping_nonempty _ _ Hm) as (c & more & ->).
  cbn. now rewrite (IH Hall).
Qed.

Lemma flat_map_length_constant {A B : Type} (f : A -> list B) (l : list A)
    (k : nat) :
  (forall a, List.length (f a) = k) ->
  List.length (flat_map f l) = List.length l * k.
Proof.
  intros H. induction l as [|a l IH]; [reflexivity|].
  cbn [flat_map List.length]. rewrite length_app, H, IH. lia.
Qed.

Lemma length_list_ascii_of_string (s : string) :
  List.length (list_ascii_of_string s) = String.length s.
Proof. induction s as [|c s IH]; cbn; [reflexivity | now rewrite IH]. Qed.

Lemma combinationsFrom_length (remaining : string) :
  forall prefix,
    List.length (combinationsFrom remaining prefix)
    = combinationCount remaining.
Proof.
  induction remaining as [|digit rest IH]; intros prefix; [reflexivity|].
  cbn [combinationsFrom combinationCount].
  rewrite (flat_map_length_constant _ _ (combinationCount rest))
    by (intros c; apply IH).
  now rewrite length_list_ascii_of_string.
Qed.

Lemma In_list_ascii_of_string (c : ascii) (s : string) :
  In c (list_ascii_of_string s) <-> occursIn c s = true.
Proof.
  induction s as [|d s IH]; cbn; [split; [tauto | discriminate]|].
  rewrite orb_true_iff, Ascii.eqb_eq, IH. tauto.
Qed.

Lemma combinationsFrom_In (remaining : string) :
  allKeypadDigits remaining = true ->
  forall prefix s,
    In s (combinationsFrom remaining prefix) <->
    exists t, s = prefix ++ t /\ spells remaining t.
Proof.
  induction remaining as [|digit rest IH]; intros Hall prefix s.
  - cbn. split.
    + intros [<-|[]]. exists "". now rewrite append_empty_r.
    + intros (t & -> & Ht). destruct t; [|contradiction].
      left. now rewrite append_empty_r.
  - cbn [allKeypadDigits] in Hall. cbn [combinationsFrom].
    destruct (keypad_mapping digit) as [letters|] eqn:Hm; [|discriminate].
    cbn [or_empty]. rewrite in_flat_map. split.
    + intros (c & Hc & Hin). apply (IH Hall) in Hin.
      destruct Hin as (t & -> & Ht).
      exists (String c t). rewrite append_assoc. split; [reflexivity|].
      cbn [spells]. rewrite Hm. split; [|assumption].
      exists letters. split; [reflexivity|].
      now apply In_list_ascii_of_string.
    + intros (t & -> & Ht). destruct t as [|c t]; [contradiction|].
      cbn [spells] in Ht. destruct Ht as [(letters' & Hl & Hc) Ht].
      rewrite Hm in Hl. injection Hl as <-.
      exists c. split; [now apply In_list_ascii_of_string|].
      apply (IH Hall). exists t. rewrite append_assoc. now split.
Qed.

Lemma letterCombinations_pure (digits : string) :
  letterCombinations digits
  = if allKeypadDigits digits
    then inr (if digits =? "" then [] else combinationsFrom digits "")
    else inl TypeError.
Proof.
  unfold letterCombinations.
  destruct digits as [|d rest]; [reflexivity|].
  cbn [String.eqb].
  destruct (allKeypadDigits (String d rest)) eqn:Hall.
  - now apply letterCombinations_helper_pure.
  - now apply letterCombinations_helper_throws.
Qed.

(** X15. [letterCombinations] returns the empty list on the empty
    string, throws when some character is not one of the digits 2 to 9,
    and otherwise returns as many strings as the product of the letter
    counts of the digits, namely the strings that pick one letter per
    digit, in order. *)
Theorem letterCombinations_result (digits : string) :
  (digits = "" -> letterCombinations digits = inr []) /\
  (allKeypadDigits digits = false ->
   letterCombinations digits = inl TypeError) /\
  (digits <> "" -> allKeypadDigits digits = true ->
   exists combinations,
     letterCombinations digits = inr combinations /\
     List.length combinations = combinationCount digits /\
     forall s, In s combinations <-> spells digits s).
Proof.
  rewrite letterCombinations_pure. split; [|split].
  - now intros ->.
  - now intros ->.
  - intros Hne Hall. rewrite Hall.
    destruct (String.eqb_spec digits "") as [->|_]; [contradiction|].
    eexists. split; [reflexivity|].
    split; [apply combinationsFrom_length|].
    intros s. rewrite (combinationsFrom_In digits Hall "" s).
    cbn [append]. split.
    + now intros (t & -> & Ht).
    + intros Hs. now exists s.
Qed.

Lemma considerSubstring_keeps (str : string) (seen : nat -> nat -> Prop)
    (i j : nat) (state : Longest) :
  i <= j -> j < String.length str ->
  LongestSoFar str seen state ->
  LongestSoFar str (fun i' j' => seen i' j' \/ (i' = i /\ j' = j))
    (considerSubstring str i j state).
Proof.
  intros Hij Hj (Hlen & Hpal & Hsub & Hmax).
  unfold considerSubstring. cbv zeta.
  destruct (String.eqb_spec (js_substring str i (j + 1))
              (reverse (js_substring str i (j + 1)))) as [Heq|Hne].
  - destruct (Nat.ltb_spec (longestPalindromeLength state)
                (String.length (js_substring str i (j + 1)))) as [Hlt|Hge].
    + repeat split; cbn [longestPalindrome longestPalindromeLength].
      * exact Heq.
      * right. now exists i, j.
      * intros i' j' [Hseen | [-> ->]] Hp; [|lia].
        specialize (Hmax i' j' Hseen Hp). lia.
    + repeat split; try assumption.
      intros i' j' [Hseen | [-> ->]] Hp; [now apply Hmax | lia].
  - repeat split; try assumption.
    intros i' j' [Hseen | [-> ->]] Hp; [now apply Hmax | contradiction].
Qed.

Lemma LongestSoFar_weaken (str : string) (seen seen' : nat -> nat -> Prop)
    (state : Longest) :
  (forall i j, seen' i j -> seen i j) ->
  LongestSoFar str seen state -> LongestSoFar str seen' state.
Proof.
  intros Hw (Hlen & Hpal & Hsub & Hmax). repeat split; try assumption.
  intros i j Hs. apply Hmax. now apply Hw.
Qed.

Lemma innerLoop_keeps (str : string) (i : nat) (count : nat) :
  forall (seen : nat -> nat -> Prop) (j : nat) (state : Longest),
    i <= j -> j + count = String.length str ->
    LongestSoFar str seen state ->
    LongestSoFar str
      (fun i' j' => seen i' j' \/ (i' = i /\ j <= j' < String.length str))
      (innerLoop str i j count state).
Proof.
  induction count as [|count IH]; intros seen j state Hij Hcount Hinv.
  - cbn [innerLoop]. apply (LongestSoFar_weaken str seen); [|assumption].
    intros i' j' [H|[_ H]]; [assumption | lia].
  - cbn [innerLoop].
    eapply LongestSoFar_weaken;
      [|apply (IH _ (j + 1) _ ltac:(lia) ltac:(lia)
                 (considerSubstring_keeps str seen i j state Hij
                    ltac:(lia) Hinv))].
    cbn beta. intros i' j' [H|[-> H]]; [now left; left|].
    destruct (Nat.eq_dec j' j) as [->|Hne]; [left; right; now split|].
    right. split; [reflexivity | lia].
Qed.

Lemma outerLoop_keeps (str : string) (count : nat) :
  forall (seen : nat -> nat -> Prop) (i : nat) (state : Longest),
    i + count = String.length str ->
    LongestSoFar str seen state ->
    LongestSoFar str
      (fun i' j' => seen i' j' \/ (i <= i' /\ i' <= j' < String.length str))
      (outerLoop str i count state).
Proof.
  induction count as [|count IH]; intros seen i state Hcount Hinv.
  - cbn [outerLoop]. apply (LongestSoFar_weaken str seen); [|assumption].
    intros i' j' [H|[H1 H2]]; [assumption | lia].
  - cbn [outerLoop].
    eapply LongestSoFar_weaken;
      [|apply (IH _ (i + 1) _ ltac:(lia)
                 (innerLoop_keeps str i (String.length str - i) seen i state
                    (Nat.le_refl i) ltac:(lia) Hinv))].
    cbn beta. intros i' j' [H|[H1 H2]]; [now left; left|].
    destruct (Nat.eq_dec i' i) as [->|Hne].
    + left. right. split; [reflexivity | lia].
    + right. lia.
Qed.

Lemma reverse_empty : reverse "" = "".
Proof. reflexivity. Qed.

(** X16. [findLongestPalindrome] returns a string that reads the same
    reversed, that is at least as long as every palindromic substring of
    the input, that is empty on the empty input and a substring of the
    input otherwise. *)
Theorem findLongestPalindrome_spec (str : string) :
  let found := findLongestPalindrome str in
  found = reverse found /\
  (forall i j,
     i <= j -> j < String.length str ->
     js_substring str i (j + 1) = reverse (js_substring str i (j + 1)) ->
     String.length (js_substring str i (j + 1)) <= String.length found) /\
  (str = "" -> found = "") /\
  (str <> "" ->
   exists i j,
     i <= j /\ j < String.length str /\ found = js_substring str i (j + 1)).
Proof.
  cbv zeta. unfold findLongestPalindrome.
  assert (Hinit : LongestSoFar str (fun _ _ => False) (mkLongest "" 0)).
  { repeat split; cbn; try reflexivity; [now left | tauto]. }
  pose proof (outerLoop_keeps str (String.length str) _ 0 _ eq_refl Hinit)
    as (Hlen & Hpal & Hsub & Hmax).
  set (final := outerLoop str 0 (String.length str) (mkLongest "" 0)) in *.
  assert (Hbest : forall i j,
    i <= j -> j < String.length str ->
    js_substring str i (j + 1) = reverse (js_substring str i (j + 1)) ->
    String.length (js_substring str i (j + 1))
    <= String.length (longestPalindrome final)).
  { intros i j Hij Hj Hp. rewrite <- Hlen. apply Hmax; [|assumption].
    right. lia. }
  split; [assumption|]. split; [assumption|]. split.
  - intros ->. reflexivity.
  - intros Hne. destruct Hsub as [Hempty|Hsub]; [|assumption].
    exfalso. destruct str as [|c rest]; [contradiction|].
    assert (E : js_substring (String c rest) 0 (0 + 1) = String c "")
      by (now destruct rest).
    specialize (Hbest 0 0 (Nat.le_refl 0) ltac:(cbn; lia)).
    rewrite E, Hempty in Hbest. specialize (Hbest eq_refl).
    cbn in Hbest. lia.
Qed.

Lemma map_from_length {A B : Type} (callback : A -> nat -> B)
    (array : list A) :
  forall index, List.length (map_from callback index array)
                = List.length array.
Proof.
  induction array as [|x rest IH]; intros index; cbn; [reflexivity|].
  now rewrite IH.
Qed.

Lemma map_from_nth {A B : Type} (callback : A -> nat -> B)
    (array : list A) (a : A) (b : B) :
  forall index k,
    k < List.length array ->
    nth k (map_from callback index array) b
    = callback (nth k array a) (index + k).
Proof.
  induction array as [|x rest IH]; intros index k Hk; cbn in Hk; [lia|].
  destruct k as [|k]; cbn.
  - now rewrite Nat.add_0_r.
  - rewrite IH by lia. f_equal. lia.
Qed.

Lemma rotate_length {V : Type} (undefined : V) (array : list (list V)) :
  List.length (rotate2DArrayLeft undefined array) = List.length array.
Proof. apply map_from_length. Qed.

Lemma rotate_row_length {V : Type} (undefined : V) (array : list (list V))
    (row : list V) :
  In row (rotate2DArrayLeft undefined array) ->
  List.length row = List.length array.
Proof.
  intros Hin. apply (In_nth _ _ []) in Hin. destruct Hin as (i & Hi & <-).
  rewrite rotate_length in Hi.
  unfold rotate2DArrayLeft, Array_map.
  rewrite (map_from_nth _ _ [] []) by assumption.
  apply map_from_length.
Qed.

Lemma rotate_entry {V : Type} (undefined : V) (array : list (list V))
    (i j : nat) :
  i < List.length array -> j < List.length array ->
  nth j (nth i (rotate2DArrayLeft undefined array) []) undefined
  = nth (List.length array - i - 1) (nth j array []) undefined.
Proof.
  intros Hi Hj. unfold rotate2DArrayLeft, Array_map.
  rewrite (map_from_nth _ _ [] []) by assumption.
  now rewrite (map_from_nth _ _ [] undefined) by assumption.
Qed.

Lemma rotate_square {V : Type} (undefined : V) (array : list (list V)) :
  square (rotate2DArrayLeft undefined array).
Proof.
  intros row Hin. rewrite rotate_length. now apply rotate_row_length in Hin.
Qed.

Lemma square_ext {V : Type} (undefined : V) (a b : list (list V)) :
  square a -> square b ->
  List.length a = List.length b ->
  (forall i j,
     i < List.length a -> j < List.length a ->
     nth j (nth i a []) undefined = nth j (nth i b []) undefined) ->
  a = b.
Proof.
  intros Ha Hb Hlen Hentries.
  apply (nth_ext _ _ [] []); [assumption|].
  intros i Hi.
  assert (Hra : List.length (nth i a []) = List.length a)
    by (apply Ha, nth_In; assumption).
  assert (Hrb : List.length (nth i b []) = List.length b)
    by (apply Hb, nth_In; lia).
  apply (nth_ext _ _ undefined undefined); [lia|].
  intros j Hj. apply Hentries; lia.
Qed.

(** X17. [rotate2DArrayLeft] always returns as many rows as its argument
    has, each of that same length; entry [j] of row [i] is entry
    [length - i - 1] of row [j] of the argument, [undefined] where that
    row is too short; and on a square array four rotations give the
    array back. *)
Theorem rotate2DArrayLeft_spec {V : Type} (undefined : V)
    (array : list (list V)) :
  let rotated := rotate2DArrayLeft undefined array in
  List.length rotated = List.length array /\
  (forall row, In row rotated -> List.length row = List.length array) /\
  (forall i j,
     i < List.length array -> j < List.length array ->
     nth j (nth i rotated []) undefined
     = nth (List.length array - i - 1) (nth j array []) undefined) /\
  (square array ->
   rotate2DArrayLeft undefined
     (rotate2DArrayLeft undefined
        (rotate2DArrayLeft undefined rotated))
   = array).
Proof.
  cbv zeta. split; [apply rotate_length|].
  split; [apply rotate_row_length|].
  split; [apply rotate_entry|].
  intros Hsq.
  apply (square_ext undefined); [apply rotate_square | assumption | |].
  - now rewrite !rotate_length.
  - intros i j Hi Hj. rewrite !rotate_length in Hi, Hj.
    do 3 (rewrite rotate_entry by (rewrite !rotate_length; lia);
          rewrite !rotate_length).
    rewrite rotate_entry by lia.
    f_equal; [lia|]. f_equal. lia.
Qed.








(** The condition [i < numRows] of the first loop holds exactly for the
    first [rowCount numRows] values of [i]. *)
Lemma rowCount_spec (numRows : Number) (i : nat) :
  lessThan (number_of_nat i) numRows = true <-> i < rowCount numRows.
Proof.
  unfold lessThan, rowCount.
  destruct (QArith_base.Qlt_le_dec (number_of_nat i) numRows) as [Hlt|Hle].
  - split; [intros _|reflexivity].
    assert (H := Qround.Qle_ceiling numRows).
    assert (H' := QArith_base.Qlt_le_trans _ _ _ Hlt H).
    unfold number_of_nat in H'. rewrite <- QArith_base.Zlt_Qlt in H'. lia.
  - split; [discriminate|]. intros Hi. exfalso.
    assert (H := Qround.Qceiling_lt numRows).
    assert (H' := QArith_base.Qlt_le_trans _ _ _ H Hle).
    unfold number_of_nat in H'. rewrite <- QArith_base.Zlt_Qlt in H'. lia.
Qed.











